(** * U-Net utilities: stage planner and test-time-augmentation flips

    A shallow embedding of functions of
    [PyTorch/computer_vision/segmentation/Unet/utils/utils.py]:

    - [get_tta_flips], the fixed enumeration of flip axes;
    - [get_unet_params], the loop that derives the kernel and stride
      vectors of every U-Net stage from the patch size and the voxel
      spacings of a task;
    - [permute_4d_5d_tensor], [change_state_dict_device] and
      [adjust_tensors_for_save], which convert tensors to and from the
      filters-last layout and move state dictionaries between devices;
    - the backup schedule of [PeriodicCheckpoint.on_validation_end];
    - the checks of [get_main_args] after parsing, and [get_device];
    - [get_task_code], [get_path] and the path [get_config_file] opens.

    Python integers are [Z].  Python floats are modelled by exact
    rationals ([Q]): the loop only divides by the minimum spacing,
    multiplies or divides by a stride (1 or 2) and compares with the
    constants 2 and 8.  Equality on [Q] is [Qeq] ([==]), so statements
    about working sizes and spacings are up to [==].  A Python call either
    returns a value or raises; [outcome] records which.  The [while True]
    loop is a fuel-indexed function, and running out of fuel ([None]) is
    kept apart from both outcomes. *)

From Stdlib Require Import ZArith QArith List Bool Lia Lqa Permutation.
From Stdlib Require String Ascii DecimalString.
Import ListNotations.

Local Open Scope Z_scope.

(** ** Python values and exceptions *)

Module Py.

Inductive exn : Type :=
| ValueError
| ZeroDivisionError.

Inductive outcome (A : Type) : Type :=
| Returns (a : A)
| Raises (e : exn).

Arguments Returns {A} a.
Arguments Raises {A} e.

Definition bind {A B : Type} (m : outcome A) (k : A -> outcome B) : outcome B :=
  match m with
  | Returns a => k a
  | Raises e => Raises e
  end.

Definition raises {A : Type} (m : outcome A) : Prop :=
  exists e, m = Raises e.

(** [min(xs)]: the first smallest item; [ValueError] on an empty
    sequence. *)
Definition min (xs : list Q) : outcome Q :=
  match xs with
  | [] => Raises ValueError
  | x :: rest =>
      Returns (fold_left
                 (fun best item => if negb (Qle_bool best item) then item else best)
                 rest x)
  end.

(** [i / j] on numbers: true division, [ZeroDivisionError] when [j] is
    zero. *)
Definition true_div (i j : Q) : outcome Q :=
  if Qeq_bool j 0 then Raises ZeroDivisionError else Returns (i / j)%Q.

(** [[f x for x in xs]] where the body may raise: items are evaluated
    left to right and the first exception leaves the comprehension. *)
Fixpoint comprehension {A B : Type} (f : A -> outcome B) (xs : list A)
  : outcome (list B) :=
  match xs with
  | [] => Returns []
  | x :: xs' =>
      bind (f x) (fun y =>
      bind (comprehension f xs') (fun ys =>
      Returns (y :: ys)))
  end.

(** [all(x == 1 for x in xs)] *)
Definition all_eq_1 (xs : list Z) : bool := forallb (fun s => s =? 1) xs.

End Py.

Import Py.

Notation "x <- m ;; k" := (Py.bind m (fun x => k))
  (at level 61, m at next level, right associativity).

(** ** [get_tta_flips] *)

Definition get_tta_flips (dim : Z) : outcome (list (list Z)) :=
  if dim =? 2 then Returns [[2]; [3]; [2; 3]]
  else Returns [[2]; [3]; [4]; [2; 3]; [2; 4]; [3; 4]; [2; 3; 4]].

(** ** [get_unet_params] *)

(** The entries of the task's [config.pkl] that [get_unet_params] reads. *)
Module Config.
Record config : Type := {
  patch_size : list Z;
  spacings : list Q;
  in_channels : Z;
  n_class : Z
}.
End Config.

(** The local variables of the loop. *)
Record locals : Type := {
  strides : list (list Z);
  kernels : list (list Z);
  sizes : list Q;
  spacings : list Q
}.

(** The two [break] statements of the loop. *)
Inductive exit : Type :=
| AllStridesOne   (* [if all(s == 1 for s in stride): break] *)
| FiveStages.     (* [if len(strides) == 5: break] *)

(** [[spacing / min(spacings) for spacing in spacings]] *)
Definition spacing_ratio (spacings : list Q) : outcome (list Q) :=
  comprehension (fun spacing => m <- Py.min spacings ;; true_div spacing m) spacings.

(** [[2 if ratio <= 2 and size >= 8 else 1 for (ratio, size) in zip(spacing_ratio, sizes)]] *)
Definition stride_of (ratios sizes : list Q) : list Z :=
  map (fun '(ratio, size) => if Qle_bool ratio 2 && Qle_bool 8 size then 2 else 1)
      (combine ratios sizes).

(** [[3 if ratio <= 2 else 1 for ratio in spacing_ratio]] *)
Definition kernel_of (ratios : list Q) : list Z :=
  map (fun ratio => if Qle_bool ratio 2 then 3 else 1) ratios.

(** One pass through the body of [while True].  [inl] is a [break] (with
    the statement that broke), [inr] falls through to the next pass. *)
Definition loop_body (st : locals) : outcome (exit * locals + locals) :=
  ratios <- spacing_ratio (spacings st) ;;
  let stride := stride_of ratios (sizes st) in
  let kernel := kernel_of ratios in
  if all_eq_1 stride then Returns (inl (AllStridesOne, st))
  else
    sizes' <- comprehension (fun '(i, j) => true_div i (inject_Z j))
                            (combine (sizes st) stride) ;;
    let spacings' := map (fun '(i, j) => (i * inject_Z j)%Q)
                         (combine (spacings st) stride) in
    let st' := {| strides := strides st ++ [stride];
                  kernels := kernels st ++ [kernel];
                  sizes := sizes';
                  spacings := spacings' |} in
    if (length (strides st') =? 5)%nat then Returns (inl (FiveStages, st'))
    else Returns (inr st').

(** [while True: ...], at most [fuel] passes. *)
Fixpoint loop (fuel : nat) (st : locals) : option (outcome (exit * locals)) :=
  match fuel with
  | O => None
  | S fuel' =>
      match loop_body st with
      | Raises e => Some (Raises e)
      | Returns (inl done) => Some (Returns done)
      | Returns (inr st') => loop fuel' st'
      end
  end.

(** [strides, kernels, sizes = [], [], patch_size[:]] *)
Definition initial (cfg : Config.config) : locals :=
  {| strides := [];
     kernels := [];
     sizes := map inject_Z (Config.patch_size cfg);
     spacings := Config.spacings cfg |}.

(** The two statements after the loop:
    [strides.insert(0, len(spacings) * [1])] and
    [kernels.append(len(spacings) * [3])]. *)
Definition finish (st : locals) : list (list Z) * list (list Z) :=
  (kernels st ++ [repeat 3 (length (spacings st))],
   repeat 1 (length (spacings st)) :: strides st).

(** The five-tuple [get_unet_params] returns. *)
Record unet_params : Type := {
  ret_in_channels : Z;
  ret_n_class : Z;
  ret_kernels : list (list Z);
  ret_strides : list (list Z);
  ret_patch_size : list Z
}.

(** [get_unet_params], given the configuration that
    [get_config_file(args)] loaded. *)
Definition get_unet_params (fuel : nat) (cfg : Config.config)
  : option (outcome unet_params) :=
  match loop fuel (initial cfg) with
  | None => None
  | Some (Raises e) => Some (Raises e)
  | Some (Returns (_, st)) =>
      let '(ks, ss) := finish st in
      Some (Returns {| ret_in_channels := Config.in_channels cfg;
                       ret_n_class := Config.n_class cfg;
                       ret_kernels := ks;
                       ret_strides := ss;
                       ret_patch_size := Config.patch_size cfg |})
  end.

(** The stages the loop recorded: the kernel and stride lists as they
    stand when the loop is left, before [finish]. *)
Definition planner (fuel : nat) (cfg : Config.config)
  : option (outcome (list (list Z) * list (list Z))) :=
  match loop fuel (initial cfg) with
  | None => None
  | Some (Raises e) => Some (Raises e)
  | Some (Returns (_, st)) => Some (Returns (kernels st, strides st))
  end.

(** The stride vector of the first pass (the first two statements of
    the loop body, on the initial locals). *)
Definition first_stride (cfg : Config.config) : outcome (list Z) :=
  ratios <- spacing_ratio (Config.spacings cfg) ;;
  Returns (stride_of ratios (sizes (initial cfg))).

(** ** Valid inputs *)

(** Equal-length vectors of positive patch sizes and positive spacings. *)
Definition valid_input (cfg : Config.config) : Prop :=
  length (Config.patch_size cfg) = length (Config.spacings cfg)
  /\ Forall (fun p => 0 < p) (Config.patch_size cfg)
  /\ Forall (fun s => (0 < s)%Q) (Config.spacings cfg).

(** ** The loop without its exceptions

    On positive spacings no statement of the body raises.  The
    definitions below are the body with the exception plumbing removed;
    [loop_body_eq] ties them to [loop_body]. *)

Definition min_of (sp : list Q) : Q :=
  match Py.min sp with
  | Returns m => m
  | Raises _ => 0%Q
  end.

Definition ratios_at (st : locals) : list Q :=
  map (fun s => (s / min_of (spacings st))%Q) (spacings st).

Definition stride_at (st : locals) : list Z := stride_of (ratios_at st) (sizes st).

Definition kernel_at (st : locals) : list Z := kernel_of (ratios_at st).

Definition next (st : locals) : locals :=
  {| strides := strides st ++ [stride_at st];
     kernels := kernels st ++ [kernel_at st];
     sizes := map (fun '(i, j) => (i / inject_Z j)%Q) (combine (sizes st) (stride_at st));
     spacings := map (fun '(i, j) => (i * inject_Z j)%Q) (combine (spacings st) (stride_at st)) |}.

(** [after k st]: the locals after [k] recording passes from [st]. *)
Fixpoint after (k : nat) (st : locals) : locals :=
  match k with
  | O => st
  | S k' => after k' (next st)
  end.

Definition positive (xs : list Q) : Prop := Forall (fun x => (0 < x)%Q) xs.

Definition entries_in (a b : Z) (v : list Z) : Prop := Forall (fun x => x = a \/ x = b) v.

(** ** Powers of two and isotropic spacing *)

Definition pow2 (j : nat) : Q := inject_Z (2 ^ Z.of_nat j).

(** The smallest patch dimension. *)
Definition min_dim (patch : list Z) : Z :=
  match patch with
  | [] => 0
  | p :: rest => fold_left Z.min rest p
  end.

(** All axes have the same spacing. *)
Definition isotropic (sp : list Q) : Prop :=
  forall x y, In x sp -> In y sp -> (x == y)%Q.

(** A power of two that is at least 8. *)
Definition power_of_two_ge_8 (p : Z) : Prop := exists e, 3 <= e /\ p = 2 ^ e.

(** [min(5, log2(min_dim) - 2)], as a number of stages. *)
Definition isotropic_stage_count (patch : list Z) : nat :=
  Z.to_nat (Z.min 5 (Z.log2 (min_dim patch) - 2)).

(** The working sizes after [j] passes that halved every axis of
    [patch]. *)
Definition halved (patch : list Z) (j : nat) (szs : list Q) : Prop :=
  Forall2 (fun z p => (z == inject_Z p / pow2 j)%Q) szs patch.

(** ** Sample configurations *)

(** An isotropic 3-D task with a cubic patch. *)
Definition cfg_iso_128 : Config.config :=
  {| Config.patch_size := [128; 128; 128];
     Config.spacings := [1; 1; 1]%Q;
     Config.in_channels := 4;
     Config.n_class := 4 |}.

(** A 3-D task whose third axis is five times coarser than the others. *)
Definition cfg_aniso_64 : Config.config :=
  {| Config.patch_size := [64; 64; 64];
     Config.spacings := [1; 1; 5]%Q;
     Config.in_channels := 1;
     Config.n_class := 3 |}.

(** An isotropic 2-D task with a patch that is not square. *)
Definition cfg_iso_8_64 : Config.config :=
  {| Config.patch_size := [8; 64];
     Config.spacings := [1; 1]%Q;
     Config.in_channels := 1;
     Config.n_class := 2 |}.

(** A 2-D task whose patch is too small to be downsampled. *)
Definition cfg_small : Config.config :=
  {| Config.patch_size := [4; 6];
     Config.spacings := [1; 3 # 2]%Q;
     Config.in_channels := 1;
     Config.n_class := 2 |}.

(** A task whose smallest spacing is zero. *)
Definition cfg_zero_spacing : Config.config :=
  {| Config.patch_size := [64; 64];
     Config.spacings := [1; 0]%Q;
     Config.in_channels := 1;
     Config.n_class := 2 |}.

(** A task with three patch dimensions and two spacings. *)
Definition cfg_mismatch : Config.config :=
  {| Config.patch_size := [64; 64; 64];
     Config.spacings := [1; 1]%Q;
     Config.in_channels := 1;
     Config.n_class := 2 |}.

(** A task with a patch size and no spacing at all. *)
Definition cfg_no_spacing : Config.config :=
  {| Config.patch_size := [64; 64];
     Config.spacings := [];
     Config.in_channels := 1;
     Config.n_class := 2 |}.

(** ** The product of the strides of one axis *)

(** The total downsampling factor the stride list [ss] gives axis [a]. *)
Definition axis_factor (ss : list (list Z)) (a : nat) : Z :=
  fold_right (fun s acc => nth a s 1 * acc) 1 ss.

(** ** Tensors and state dictionaries *)

Section Tensors.

(** A tensor, as far as this file handles one: the device it lives on
    and its axes in order.  [D] is the type of devices, [A] what is
    recorded of an axis (its extent, its name), [K] the type of keys of a
    state dictionary and [O] the type of its entries that are not
    tensors. *)
Variables D A K O : Type.

Record tensor : Type := { device : D; axes : list A }.

(** [tensor.ndim] *)
Definition ndim (t : tensor) : nat := length (axes t).

(** [tensor.to(device)] *)
Definition to (d : D) (t : tensor) : tensor := {| device := d; axes := axes t |}.

(** [dims] names every axis of an [n]-axis tensor once. *)
Definition is_permutation_of_range (dims : list nat) (n : nat) : bool :=
  (length dims =? n)%nat && forallb (fun i => existsb (Nat.eqb i) dims) (seq 0 n).

Fixpoint gather (l : list A) (dims : list nat) : option (list A) :=
  match dims with
  | [] => Some []
  | d :: ds =>
      match nth_error l d, gather l ds with
      | Some x, Some xs => Some (x :: xs)
      | _, _ => None
      end
  end.

(** [tensor.permute(dims)]: axis [i] of the result is axis [dims[i]] of
    the tensor.  [None] is the error of a [dims] that is not a
    permutation of [range(ndim)]. *)
Definition permute (t : tensor) (dims : list nat) : option tensor :=
  if is_permutation_of_range dims (ndim t)
  then option_map (fun ax => {| device := device t; axes := ax |}) (gather (axes t) dims)
  else None.

(** [permute_4d_5d_tensor]; [weight_permute_pass] is what
    [htcore.is_enabled_weight_permute_pass()] answers. *)
Definition permute_4d_5d_tensor (weight_permute_pass : bool)
           (t : tensor) (to_filters_last : bool) : option tensor :=
  if weight_permute_pass then Some t
  else if (ndim t =? 4)%nat then
    if to_filters_last then permute t [2; 3; 1; 0]%nat
    else permute t [3; 2; 0; 1]%nat
  else if (ndim t =? 5)%nat then
    if to_filters_last then permute t [2; 3; 4; 1; 0]%nat
    else permute t [4; 3; 0; 1; 2]%nat
  else Some t.

(** An entry of a state dictionary: a tensor or something else
    ([isinstance(param, torch.Tensor)] tells which). *)
Inductive entry : Type :=
| Tensor (t : tensor)
| Other (o : O).

(** A dictionary in the order of its [items()]. *)
Definition state_dict : Type := list (K * entry).

(** [change_state_dict_device] *)
Definition change_state_dict_device (sd : state_dict) (to_device : D) : state_dict :=
  map (fun '(name, param) =>
         (name, match param with
                | Tensor t => Tensor (to to_device t)
                | Other o => Other o
                end))
      sd.

(** The first loop of [adjust_tensors_for_save]:
    [param.data = permute_4d_5d_tensor(param.data, to_filters_last)] for
    every tensor of the dictionary. *)
Fixpoint permute_state_dict (weight_permute_pass : bool) (sd : state_dict)
         (to_filters_last : bool) : option state_dict :=
  match sd with
  | [] => Some []
  | (name, Other o) :: rest =>
      option_map (cons (name, Other o))
                 (permute_state_dict weight_permute_pass rest to_filters_last)
  | (name, Tensor t) :: rest =>
      match permute_4d_5d_tensor weight_permute_pass t to_filters_last with
      | None => None
      | Some t' =>
          option_map (cons (name, Tensor t'))
                     (permute_state_dict weight_permute_pass rest to_filters_last)
      end
  end.

(** [adjust_tensors_for_save]: the state dictionary and the optimizer
    states as the call leaves them.  [P] is the type of the keys of
    [optimizer_states]; [lazy_mode] only decides whether [mark_step]
    reaches the device runtime. *)
Definition adjust_tensors_for_save {P : Type} (weight_permute_pass : bool)
           (sd : state_dict) (optimizer_states : list (P * state_dict))
           (to_device : D) (to_filters_last lazy_mode permute : bool)
  : option (state_dict * list (P * state_dict)) :=
  match (if permute then permute_state_dict weight_permute_pass sd to_filters_last
         else Some sd) with
  | None => None
  | Some sd' =>
      Some (change_state_dict_device sd' to_device,
            map (fun '(p, state) => (p, change_state_dict_device state to_device))
                optimizer_states)
  end.

(** Every tensor of the dictionary is on device [d]. *)
Definition all_on (d : D) (sd : state_dict) : Prop :=
  forall name t, In (name, Tensor t) sd -> device t = d.

End Tensors.

Arguments device {D A} t.
Arguments axes {D A} t.
Arguments ndim {D A} t.
Arguments to {D A} d t.
Arguments permute {D A} t dims.
Arguments permute_4d_5d_tensor {D A} weight_permute_pass t to_filters_last.
Arguments Tensor {D A O} t.
Arguments Other {D A O} o.
Arguments change_state_dict_device {D A K O} sd to_device.
Arguments permute_state_dict {D A K O} weight_permute_pass sd to_filters_last.
Arguments adjust_tensors_for_save {D A K O P} weight_permute_pass sd optimizer_states
  to_device to_filters_last lazy_mode permute.
Arguments all_on {D A K O} d sd.

(** ** The backup schedule of [PeriodicCheckpoint] *)

(** Whether [on_validation_end] writes [backup_epoch_{epoch}.pt]:
    [if self.every_n:] and then
    [if epoch < self.first_n or epoch % self.every_n == 0:].
    [every_n] is [None] or an integer; Python's [%] takes the sign of the
    divisor, as [Z.modulo] does. *)
Definition saves_backup (every_n : option Z) (first_n epoch : Z) : bool :=
  match every_n with
  | None => false
  | Some n =>
      if n =? 0 then false
      else (epoch <? first_n) || (epoch mod n =? 0)
  end.

(** ** Command-line arguments *)

Module Cli.
Import String Ascii.
Local Open Scope string_scope.

(** The [choices] of [--optimizer]. *)
Inductive optimizer_name : Type := sgd | radam | adam | adamw | fusedadamw.

(** The arguments the statements after [parse_args] and [get_device]
    read or write.  [--gpus] and [--hpus] are [non_negative_int]s. *)
Record args : Type := {
  gpus : Z;
  hpus : Z;
  run_lazy_mode : bool;
  optimizer : optimizer_name;
  is_hmp : bool;
  hmp_bf16 : string;
  hmp_fp32 : string
}.

Inductive error : Type :=
| AssertionError
| NotImplementedError.

(** The three devices of [get_device]. *)
Inductive device_name : Type := cuda | hpu | cpu.

(** [s.endswith("/")] *)
Definition ends_with_sep (s : string) : bool :=
  match get (length s - 1) s with
  | Some c => Ascii.eqb c "/"%char
  | None => false
  end.

(** [os.path.join(a, b)] on a POSIX system. *)
Definition path_join (a b : string) : string :=
  if prefix "/" b then b
  else if (a =? "") || ends_with_sep a then a ++ b
  else a ++ "/" ++ b.

(** The default operator lists of [--hmp], relative to this file. *)
Definition ops_bf16 : string := "../config/ops_bf16_unet.txt".
Definition ops_fp32 : string := "../config/ops_fp32_unet.txt".

(** The statements of [get_main_args] after [parse_args]; [here] is
    [get_canonical_path_str(os.path.dirname(__file__))]. *)
Definition check_args (here : string) (a : args) : error + args :=
  if negb (hpus a =? 0)%Z && negb (gpus a =? 0)%Z then inl AssertionError
  else
    let lazy := if (hpus a =? 0)%Z then false else run_lazy_mode a in
    if (hpus a =? 0)%Z
       && match optimizer a with fusedadamw => true | _ => false end
    then inl NotImplementedError
    else
      let bf16 :=
        if is_hmp a && (hmp_bf16 a =? "")
        then path_join here ops_bf16 else hmp_bf16 a in
      let fp32 :=
        if is_hmp a && (hmp_fp32 a =? "")
        then path_join here ops_fp32 else hmp_fp32 a in
      inr {| gpus := gpus a; hpus := hpus a; run_lazy_mode := lazy;
             optimizer := optimizer a; is_hmp := is_hmp a;
             hmp_bf16 := bf16; hmp_fp32 := fp32 |}.

(** [get_device], by the name of the device it asks [torch] for. *)
Definition get_device (a : args) : device_name :=
  if negb (gpus a =? 0)%Z then cuda
  else if negb (hpus a =? 0)%Z then hpu
  else cpu.

End Cli.

(** ** Data and configuration paths *)

Module Paths.
Import String Ascii.
Local Open Scope string_scope.

(** The [choices] of [--exec_mode]. *)
Inductive mode : Type := train | evaluate | predict.

(** The arguments [get_task_code], [get_path] and [get_config_file]
    read.  [--task] has no default, so it may be [None]. *)
Record args : Type := {
  task : option string;
  dim : Z;
  data : string;
  exec_mode : mode;
  benchmark : bool
}.

(** How an f-string prints an integer and an optional string. *)
Definition str_int (z : Z) : string :=
  DecimalString.NilZero.string_of_int (Z.to_int z).

Definition str_opt (s : option string) : string :=
  match s with
  | Some s => s
  | None => "None"
  end.

Definition config_pkl : string := "config.pkl".
Definition test_dir : string := "test".
Definition default_data : string := "/data".

(** [get_task_code]: [f"{args.task}_{args.dim}d"] *)
Definition get_task_code (a : args) : string :=
  str_opt (task a) ++ "_" ++ str_int (dim a) ++ "d".

(** [get_path] *)
Definition get_path (a : args) : string :=
  if negb (data a =? default_data) then data a
  else
    let data_path := Cli.path_join (data a) (get_task_code a) in
    match exec_mode a with
    | predict =>
        if negb (benchmark a) then Cli.path_join data_path test_dir else data_path
    | _ => data_path
    end.

(** The path [get_config_file] opens. *)
Definition config_path (a : args) : string :=
  let task_code := get_task_code a in
  if negb (data a =? default_data) then Cli.path_join (data a) config_pkl
  else Cli.path_join (Cli.path_join (data a) task_code) config_pkl.

(** Prediction on task 01 in 3-D from the default data directory. *)
Definition args_predict : args :=
  {| task := Some "01"; dim := 3; data := default_data;
     exec_mode := predict; benchmark := false |}.

End Paths.

(** ** Sample tensors and arguments *)

(** A state dictionary on the host: a 4-D convolution weight
    (32 filters, 4 channels, 3 by 3), an entry that is not a tensor and
    a bias; axes are recorded by their extent. *)
Definition sd_sample : list (nat * entry Cli.device_name Z unit) :=
  [ (0%nat, Tensor {| device := Cli.cpu; axes := [32; 4; 3; 3] |});
    (1%nat, Other tt);
    (2%nat, Tensor {| device := Cli.cpu; axes := [32] |}) ].

(** Optimizer states for the first parameter: a step count and a
    momentum buffer. *)
Definition opt_sample : list (nat * list (nat * entry Cli.device_name Z unit)) :=
  [ (0%nat, [ (0%nat, Other tt);
              (1%nat, Tensor {| device := Cli.cpu; axes := [32; 4; 3; 3] |}) ]) ].

(** Arguments for one HPU in lazy mode with mixed precision and no
    operator lists given. *)
Definition args_hpu : Cli.args :=
  {| Cli.gpus := 0; Cli.hpus := 1; Cli.run_lazy_mode := true;
     Cli.optimizer := Cli.fusedadamw; Cli.is_hmp := true;
     Cli.hmp_bf16 := String.EmptyString; Cli.hmp_fp32 := String.EmptyString |}.

(** * Properties *)

(** ** Comprehensions and [min] *)

Lemma comprehension_map {A B : Type} (f : A -> outcome B) (g : A -> B) (xs : list A) :
  (forall x, In x xs -> f x = Returns (g x)) ->
  comprehension f xs = Returns (map g xs).
Proof.
  induction xs as [|x xs IH]; intros Hf; simpl.
  - reflexivity.
  - rewrite (Hf x (or_introl eq_refl)). simpl.
    rewrite IH by (intros y Hy; apply Hf; right; exact Hy).
    reflexivity.
Qed.

Lemma fold_min_spec (rest : list Q) : forall x : Q,
  let m := fold_left (fun best item => if negb (Qle_bool best item) then item else best)
                     rest x in
  (m = x \/ In m rest) /\ (m <= x)%Q /\ Forall (fun y => (m <= y)%Q) rest.
Proof.
  induction rest as [|y rest IH]; intros x; simpl.
  - repeat split; [now left | apply Qle_refl | constructor].
  - destruct (Qle_bool x y) eqn:E; simpl.
    + destruct (IH x) as ([Hm|Hm] & Hle & Hall).
      * repeat split; [now left | exact Hle | ].
        constructor; [|exact Hall].
        apply Qle_bool_iff in E. eapply Qle_trans; eassumption.
      * repeat split; [right; now right | exact Hle | ].
        constructor; [|exact Hall].
        apply Qle_bool_iff in E. eapply Qle_trans; eassumption.
    + assert (Hyx : (y <= x)%Q).
      { destruct (Qlt_le_dec y x) as [H|H]; [now apply Qlt_le_weak|].
        apply Qle_bool_iff in H. congruence. }
      destruct (IH y) as ([Hm|Hm] & Hle & Hall).
      * repeat split; [right; now left | eapply Qle_trans; eassumption | ].
        constructor; [exact Hle | exact Hall].
      * repeat split; [right; now right | eapply Qle_trans; eassumption | ].
        constructor; [exact Hle | exact Hall].
Qed.

Lemma min_returns (x : Q) (rest : list Q) :
  Py.min (x :: rest) = Returns (min_of (x :: rest)).
Proof. reflexivity. Qed.

Lemma min_of_spec (sp : list Q) :
  sp <> [] ->
  In (min_of sp) sp /\ Forall (fun y => (min_of sp <= y)%Q) sp.
Proof.
  destruct sp as [|x rest]; [congruence|]. intros _.
  unfold min_of; simpl.
  destruct (fold_min_spec rest x) as (Hin & Hle & Hall).
  split.
  - destruct Hin as [->|Hin]; [now left | now right].
  - constructor; assumption.
Qed.

Lemma min_of_pos (sp : list Q) : positive sp -> sp <> [] -> (0 < min_of sp)%Q.
Proof.
  intros Hpos Hne. destruct (min_of_spec sp Hne) as [Hin _].
  unfold positive in Hpos. rewrite Forall_forall in Hpos. now apply Hpos.
Qed.

Lemma spacing_ratio_returns (sp : list Q) :
  positive sp ->
  spacing_ratio sp = Returns (map (fun s => (s / min_of sp)%Q) sp).
Proof.
  intros Hpos. unfold spacing_ratio.
  apply comprehension_map. intros x Hx.
  destruct sp as [|y rest]; [contradiction|].
  rewrite min_returns. simpl.
  assert (Hm : (0 < min_of (y :: rest))%Q) by (apply min_of_pos; [exact Hpos | discriminate]).
  unfold true_div.
  destruct (Qeq_bool (min_of (y :: rest)) 0) eqn:E; [|reflexivity].
  apply Qeq_bool_iff in E. rewrite E in Hm. discriminate Hm.
Qed.

(** ** Shape of the stride and kernel vectors *)

Lemma stride_of_entries (ratios szs : list Q) : entries_in 1 2 (stride_of ratios szs).
Proof.
  unfold entries_in, stride_of. apply Forall_forall. intros z Hz.
  apply in_map_iff in Hz. destruct Hz as ([r s] & <- & _).
  destruct (Qle_bool r 2 && Qle_bool 8 s); auto.
Qed.

Lemma kernel_of_entries (ratios : list Q) : entries_in 1 3 (kernel_of ratios).
Proof.
  unfold entries_in, kernel_of. apply Forall_forall. intros z Hz.
  apply in_map_iff in Hz. destruct Hz as (r & <- & _).
  destruct (Qle_bool r 2); auto.
Qed.

Lemma stride_of_length (ratios szs : list Q) :
  length (stride_of ratios szs) = Nat.min (length ratios) (length szs).
Proof. unfold stride_of. now rewrite length_map, length_combine. Qed.

Lemma kernel_of_length (ratios : list Q) : length (kernel_of ratios) = length ratios.
Proof. unfold kernel_of. apply length_map. Qed.

Lemma stride_at_length (st : locals) :
  length (stride_at st) = Nat.min (length (spacings st)) (length (sizes st)).
Proof. unfold stride_at, ratios_at. now rewrite stride_of_length, length_map. Qed.

Lemma kernel_at_length (st : locals) : length (kernel_at st) = length (spacings st).
Proof. unfold kernel_at, ratios_at. now rewrite kernel_of_length, length_map. Qed.

(** Dividing by a stride never raises: a stride is 1 or 2. *)
Lemma halving_returns (szs : list Q) (stride : list Z) :
  entries_in 1 2 stride ->
  comprehension (fun '(i, j) => true_div i (inject_Z j)) (combine szs stride)
  = Returns (map (fun '(i, j) => (i / inject_Z j)%Q) (combine szs stride)).
Proof.
  intros Hs. apply comprehension_map. intros [i j] Hij.
  apply in_combine_r in Hij.
  unfold entries_in in Hs. rewrite Forall_forall in Hs.
  destruct (Hs j Hij) as [-> | ->]; reflexivity.
Qed.

(** The body of the loop on positive spacings. *)
Lemma loop_body_eq (st : locals) :
  positive (spacings st) ->
  loop_body st =
  Returns (if all_eq_1 (stride_at st) then inl (AllStridesOne, st)
           else if (length (strides (next st)) =? 5)%nat then inl (FiveStages, next st)
                else inr (next st)).
Proof.
  intros Hpos. unfold loop_body.
  rewrite (spacing_ratio_returns _ Hpos). simpl.
  fold (ratios_at st). fold (stride_at st). fold (kernel_at st).
  destruct (all_eq_1 (stride_at st)); [reflexivity|].
  rewrite halving_returns by apply stride_of_entries. simpl.
  fold (next st).
  match goal with |- context [if ?b then _ else _] => destruct b end; reflexivity.
Qed.

(** ** Recording passes *)

Lemma next_positive (st : locals) :
  positive (spacings st) -> positive (spacings (next st)).
Proof.
  unfold positive. intros Hpos. simpl.
  apply Forall_forall. intros x Hx.
  apply in_map_iff in Hx. destruct Hx as ([i j] & <- & Hij).
  pose proof (in_combine_l _ _ _ _ Hij) as Hi.
  pose proof (in_combine_r _ _ _ _ Hij) as Hj.
  rewrite Forall_forall in Hpos. specialize (Hpos i Hi).
  pose proof (stride_of_entries (ratios_at st) (sizes st)) as He.
  unfold entries_in in He. rewrite Forall_forall in He.
  destruct (He j Hj) as [-> | ->].
  - change (inject_Z 1) with 1%Q. lra.
  - change (inject_Z 2) with 2%Q. lra.
Qed.

Lemma next_lengths (n : nat) (st : locals) :
  length (spacings st) = n -> length (sizes st) = n ->
  length (spacings (next st)) = n /\ length (sizes (next st)) = n.
Proof.
  intros Hsp Hsz. simpl.
  rewrite !length_map, !length_combine, stride_at_length, Hsp, Hsz. lia.
Qed.

Lemma after_S (k : nat) (st : locals) : after (S k) st = next (after k st).
Proof.
  revert st. induction k as [|k IH]; intros st.
  - reflexivity.
  - change (after (S (S k)) st) with (after (S k) (next st)).
    rewrite IH. reflexivity.
Qed.

Lemma after_positive (k : nat) (st : locals) :
  positive (spacings st) -> positive (spacings (after k st)).
Proof.
  intros H. induction k as [|k IH]; [exact H|].
  rewrite after_S. now apply next_positive.
Qed.

Lemma after_lengths (n k : nat) (st : locals) :
  length (spacings st) = n -> length (sizes st) = n ->
  length (spacings (after k st)) = n /\ length (sizes (after k st)) = n.
Proof.
  intros Hsp Hsz. induction k as [|k [IH1 IH2]]; [now split|].
  rewrite after_S. now apply next_lengths.
Qed.

(** The stride and kernel lists are the vectors of the passes so far, in
    order. *)
Lemma strides_after (k : nat) (st : locals) :
  strides (after k st) = strides st ++ map (fun i => stride_at (after i st)) (seq 0 k).
Proof.
  induction k as [|k IH].
  - simpl. now rewrite app_nil_r.
  - rewrite after_S, seq_S, map_app, app_assoc, <- IH. reflexivity.
Qed.

Lemma kernels_after (k : nat) (st : locals) :
  kernels (after k st) = kernels st ++ map (fun i => kernel_at (after i st)) (seq 0 k).
Proof.
  induction k as [|k IH].
  - simpl. now rewrite app_nil_r.
  - rewrite after_S, seq_S, map_app, app_assoc, <- IH. reflexivity.
Qed.

Lemma length_strides_after (k : nat) (st : locals) :
  length (strides (after k st)) = (length (strides st) + k)%nat.
Proof. now rewrite strides_after, length_app, length_map, length_seq. Qed.

Lemma length_kernels_after (k : nat) (st : locals) :
  length (kernels (after k st)) = (length (kernels st) + k)%nat.
Proof. now rewrite kernels_after, length_app, length_map, length_seq. Qed.

(** ** The loop *)

(** With enough fuel the loop leaves through one of its two [break]s
    after [k] recording passes, [k] being the first pass count at which
    either every stride is 1 or five stages are recorded. *)
Lemma loop_run (fuel : nat) : forall st : locals,
  positive (spacings st) ->
  (length (strides st) < 5)%nat ->
  (5 <= length (strides st) + fuel)%nat ->
  exists (k : nat) (ex : exit),
    loop fuel st = Some (Returns (ex, after k st))
    /\ (forall i, (i < k)%nat -> all_eq_1 (stride_at (after i st)) = false)
    /\ match ex with
       | AllStridesOne =>
           all_eq_1 (stride_at (after k st)) = true /\ (length (strides st) + k < 5)%nat
       | FiveStages => (length (strides st) + k)%nat = 5%nat
       end.
Proof.
  induction fuel as [|fuel IH]; intros st Hpos Hlt Hfuel; [lia|].
  simpl. rewrite (loop_body_eq st Hpos).
  destruct (all_eq_1 (stride_at st)) eqn:Hall.
  - exists 0%nat, AllStridesOne. simpl. repeat split; [lia | exact Hall | lia].
  - assert (Hlen : length (strides (next st)) = S (length (strides st))).
    { simpl. rewrite length_app. simpl. lia. }
    destruct (length (strides (next st)) =? 5)%nat eqn:Hfive.
    + apply Nat.eqb_eq in Hfive.
      exists 1%nat, FiveStages. simpl. repeat split; [|lia].
      intros i Hi. assert (i = 0%nat) as -> by lia. exact Hall.
    + apply Nat.eqb_neq in Hfive.
      destruct (IH (next st)) as (k & ex & Hrun & Hbefore & Hexit);
        [now apply next_positive | lia | lia |].
      exists (S k), ex. simpl. repeat split.
      * exact Hrun.
      * intros [|i] Hi; [exact Hall|]. simpl. apply Hbefore. lia.
      * destruct ex; rewrite Hlen in Hexit; [destruct Hexit; split|]; try assumption; lia.
Qed.

Lemma initial_positive (cfg : Config.config) :
  valid_input cfg -> positive (spacings (initial cfg)).
Proof. intros (_ & _ & H). exact H. Qed.

Lemma initial_lengths (cfg : Config.config) :
  valid_input cfg ->
  length (spacings (initial cfg)) = length (Config.spacings cfg)
  /\ length (sizes (initial cfg)) = length (Config.spacings cfg).
Proof. intros (H & _ & _). simpl. rewrite length_map. now split. Qed.

(** The loop on a valid input started from the initial locals. *)
Lemma loop_valid (fuel : nat) (cfg : Config.config) :
  valid_input cfg -> (5 <= fuel)%nat ->
  exists (k : nat) (ex : exit),
    loop fuel (initial cfg) = Some (Returns (ex, after k (initial cfg)))
    /\ (k <= 5)%nat
    /\ (forall i, (i < k)%nat -> all_eq_1 (stride_at (after i (initial cfg))) = false)
    /\ match ex with
       | AllStridesOne =>
           all_eq_1 (stride_at (after k (initial cfg))) = true /\ (k < 5)%nat
       | FiveStages => k = 5%nat
       end.
Proof.
  intros Hv Hfuel.
  destruct (loop_run fuel (initial cfg)) as (k & ex & Hrun & Hbefore & Hexit);
    [now apply initial_positive | simpl; lia | simpl; lia |].
  simpl in Hexit.
  exists k, ex. repeat split; try assumption.
  destruct ex; [destruct Hexit|]; lia.
Qed.

(** Every vector recorded from a state with [n] sizes and [n] spacings
    has [n] entries of the right kind. *)
Lemma stride_at_shape (n k : nat) (st : locals) :
  length (spacings st) = n -> length (sizes st) = n ->
  length (stride_at (after k st)) = n /\ entries_in 1 2 (stride_at (after k st)).
Proof.
  intros Hsp Hsz. destruct (after_lengths n k st Hsp Hsz) as [H1 H2].
  split; [|apply stride_of_entries].
  rewrite stride_at_length, H1, H2. lia.
Qed.

Lemma kernel_at_shape (n k : nat) (st : locals) :
  length (spacings st) = n -> length (sizes st) = n ->
  length (kernel_at (after k st)) = n /\ entries_in 1 3 (kernel_at (after k st)).
Proof.
  intros Hsp Hsz. destruct (after_lengths n k st Hsp Hsz) as [H1 H2].
  split; [|apply kernel_of_entries].
  now rewrite kernel_at_length.
Qed.

Lemma repeat_entries (a b x : Z) (n : nat) :
  x = a \/ x = b -> entries_in a b (repeat x n).
Proof.
  intros H. unfold entries_in. apply Forall_forall.
  intros y Hy. apply repeat_spec in Hy. now subst.
Qed.

Lemma loop_more_fuel (fuel : nat) : forall (st : locals) r,
  loop fuel st = Some r -> loop (S fuel) st = Some r.
Proof.
  induction fuel as [|fuel IH]; intros st r H; [discriminate|].
  change (loop (S (S fuel)) st) with
    (match loop_body st with
     | Raises e => Some (Raises e)
     | Returns (inl done) => Some (Returns done)
     | Returns (inr st') => loop (S fuel) st'
     end).
  simpl in H.
  destruct (loop_body st) as [[done|st']|e]; try exact H.
  now apply IH.
Qed.

Lemma loop_fuel_le (fuel fuel' : nat) (st : locals) r :
  (fuel <= fuel')%nat -> loop fuel st = Some r -> loop fuel' st = Some r.
Proof.
  intros Hle H. induction Hle as [|m _ IH]; [exact H|].
  now apply loop_more_fuel.
Qed.

(** The loop on a valid input: five passes of fuel are enough, and more
    fuel does not change the result. *)
Lemma loop_any_fuel (cfg : Config.config) :
  valid_input cfg ->
  exists (k : nat) (ex : exit),
    (forall fuel, (5 <= fuel)%nat ->
       loop fuel (initial cfg) = Some (Returns (ex, after k (initial cfg))))
    /\ (k <= 5)%nat
    /\ (forall i, (i < k)%nat -> all_eq_1 (stride_at (after i (initial cfg))) = false)
    /\ match ex with
       | AllStridesOne =>
           all_eq_1 (stride_at (after k (initial cfg))) = true /\ (k < 5)%nat
       | FiveStages => k = 5%nat
       end.
Proof.
  intros Hv.
  destruct (loop_valid 5 cfg Hv (Nat.le_refl 5)) as (k & ex & Hrun & Hk & Hbefore & Hexit).
  exists k, ex. repeat split; try assumption.
  intros fuel Hfuel. now apply (loop_fuel_le 5 fuel).
Qed.

Lemma get_unet_params_of_loop (fuel : nat) (cfg : Config.config) (ex : exit) (st : locals) :
  loop fuel (initial cfg) = Some (Returns (ex, st)) ->
  get_unet_params fuel cfg =
  Some (Returns {| ret_in_channels := Config.in_channels cfg;
                   ret_n_class := Config.n_class cfg;
                   ret_kernels := kernels st ++ [repeat 3 (length (spacings st))];
                   ret_strides := repeat 1 (length (spacings st)) :: strides st;
                   ret_patch_size := Config.patch_size cfg |}).
Proof. intros H. unfold get_unet_params. rewrite H. reflexivity. Qed.

Lemma planner_of_loop (fuel : nat) (cfg : Config.config) (ex : exit) (st : locals) :
  loop fuel (initial cfg) = Some (Returns (ex, st)) ->
  planner fuel cfg = Some (Returns (kernels st, strides st)).
Proof. intros H. unfold planner. rewrite H. reflexivity. Qed.

Lemma first_stride_eq (cfg : Config.config) :
  valid_input cfg -> first_stride cfg = Returns (stride_at (initial cfg)).
Proof.
  intros Hv. unfold first_stride.
  rewrite (spacing_ratio_returns (Config.spacings cfg) (initial_positive cfg Hv)).
  reflexivity.
Qed.

Ltac valid_by_computation :=
  unfold valid_input; simpl;
  repeat split; repeat (constructor; try reflexivity).

(** ** The flip set *)

(** C4: [get_tta_flips(2)] is exactly [[[2],[3],[2,3]]] and
    [get_tta_flips(3)] is exactly
    [[[2],[3],[4],[2,3],[2,4],[3,4],[2,3,4]]], same length and order. *)
Theorem get_tta_flips_2_and_3 :
  get_tta_flips 2 = Returns [[2]; [3]; [2; 3]]
  /\ get_tta_flips 3 = Returns [[2]; [3]; [4]; [2; 3]; [2; 4]; [3; 4]; [2; 3; 4]].
Proof. split; reflexivity. Qed.

(** C3, as stated, fails: for [dim = 4], which is outside {2, 3}, the
    call does not raise. *)
Lemma get_tta_flips_4_does_not_raise :
  ~ (4 <> 2 -> 4 <> 3 -> raises (get_tta_flips 4)).
Proof.
  intros H. destruct H as [e He]; [lia | lia |].
  discriminate He.
Qed.

(** C3, amended: for every [dim] outside {2, 3} the call does not fail;
    it returns the seven-entry enumeration of the 3-D mode. *)
Theorem get_tta_flips_other_dim (dim : Z) :
  dim <> 2 -> dim <> 3 ->
  get_tta_flips dim = Returns [[2]; [3]; [4]; [2; 3]; [2; 4]; [3; 4]; [2; 3; 4]].
Proof.
  intros H2 _. unfold get_tta_flips.
  destruct (dim =? 2) eqn:E; [|reflexivity].
  apply Z.eqb_eq in E. contradiction.
Qed.

Lemma get_tta_flips_other_dim_witness :
  7 <> 2 /\ 7 <> 3
  /\ get_tta_flips 7 = Returns [[2]; [3]; [4]; [2; 3]; [2; 4]; [3; 4]; [2; 3; 4]].
Proof.
  split; [lia|]. split; [lia|].
  apply (get_tta_flips_other_dim 7); lia.
Defined.

(** ** The planner on valid inputs *)

Section ValidInput.

Variable cfg : Config.config.
Hypothesis Hvalid : valid_input cfg.

(** The stride vectors recorded by [k] passes. *)
Lemma recorded_strides_shape (k : nat) :
  Forall (fun s => length s = length (Config.spacings cfg) /\ entries_in 1 2 s)
         (strides (after k (initial cfg))).
Proof.
  destruct (initial_lengths cfg Hvalid) as [Hsp Hsz].
  rewrite strides_after. simpl.
  apply Forall_forall. intros s Hs.
  apply in_map_iff in Hs. destruct Hs as (i & <- & _).
  now apply stride_at_shape.
Qed.

Lemma recorded_kernels_shape (k : nat) :
  Forall (fun v => length v = length (Config.spacings cfg) /\ entries_in 1 3 v)
         (kernels (after k (initial cfg))).
Proof.
  destruct (initial_lengths cfg Hvalid) as [Hsp Hsz].
  rewrite kernels_after. simpl.
  apply Forall_forall. intros v Hv.
  apply in_map_iff in Hv. destruct Hv as (i & <- & _).
  now apply kernel_at_shape.
Qed.

Lemma spacings_after_length (k : nat) :
  length (spacings (after k (initial cfg))) = length (Config.spacings cfg).
Proof.
  destruct (initial_lengths cfg Hvalid) as [Hsp Hsz].
  now destruct (after_lengths _ k (initial cfg) Hsp Hsz).
Qed.

Lemma recorded_strides_not_all_one (k : nat) :
  (forall i, (i < k)%nat -> all_eq_1 (stride_at (after i (initial cfg))) = false) ->
  Forall (fun s => all_eq_1 s = false) (strides (after k (initial cfg))).
Proof.
  intros H. rewrite strides_after. simpl.
  apply Forall_forall. intros s Hs.
  apply in_map_iff in Hs. destruct Hs as (i & <- & Hi).
  apply in_seq in Hi. apply H. lia.
Qed.

End ValidInput.











(** C10: when the first pass already gives stride 1 on every axis, the
    call still returns a plan of one stage: the stride list is the single
    all-ones vector and the kernel list is the single all-threes
    vector. *)
Theorem no_downsampling_plan (fuel : nat) (cfg : Config.config) :
  valid_input cfg -> (1 <= fuel)%nat ->
  (exists s, first_stride cfg = Returns s /\ all_eq_1 s = true) ->
  get_unet_params fuel cfg =
  Some (Returns {| ret_in_channels := Config.in_channels cfg;
                   ret_n_class := Config.n_class cfg;
                   ret_kernels := [repeat 3 (length (Config.spacings cfg))];
                   ret_strides := [repeat 1 (length (Config.spacings cfg))];
                   ret_patch_size := Config.patch_size cfg |}).
Proof.
  intros Hv Hfuel (s & Hs & Hall).
  rewrite (first_stride_eq cfg Hv) in Hs. injection Hs as <-.
  apply (get_unet_params_of_loop fuel cfg AllStridesOne (initial cfg)).
  destruct fuel as [|fuel]; [lia|].
  simpl. rewrite (loop_body_eq _ (initial_positive cfg Hv)), Hall. reflexivity.
Qed.

Lemma no_downsampling_plan_witness :
  valid_input cfg_small /\ (1 <= 5)%nat
  /\ (exists s, first_stride cfg_small = Returns s /\ all_eq_1 s = true)
  /\ get_unet_params 5 cfg_small =
     Some (Returns {| ret_in_channels := 1;
                      ret_n_class := 2;
                      ret_kernels := [[3; 3]];
                      ret_strides := [[1; 1]];
                      ret_patch_size := [4; 6] |}).
Proof.
  split; [valid_by_computation|]. split; [lia|].
  split; [exists [1; 1]; split; reflexivity|].
  apply (no_downsampling_plan 5 cfg_small);
    [valid_by_computation | lia | exists [1; 1]; split; reflexivity].
Defined.

(** ** Entry by entry *)

Lemma Qle_bool_true (x y : Q) : (x <= y)%Q -> Qle_bool x y = true.
Proof. apply Qle_bool_iff. Qed.

Lemma Qle_bool_false (x y : Q) : (y < x)%Q -> Qle_bool x y = false.
Proof.
  intros H. destruct (Qle_bool x y) eqn:E; [|reflexivity].
  apply Qle_bool_iff in E. lra.
Qed.

Lemma nth_error_combine {A B : Type} (l : list A) (l' : list B) (i : nat) (a : A) (b : B) :
  nth_error l i = Some a -> nth_error l' i = Some b ->
  nth_error (combine l l') i = Some (a, b).
Proof.
  revert l l'. induction i as [|i IH]; intros [|x l] [|y l'] Ha Hb; try discriminate.
  - simpl in *. congruence.
  - simpl in *. now apply IH.
Qed.

Lemma stride_of_nth (ratios szs : list Q) (i : nat) (r z : Q) :
  nth_error ratios i = Some r -> nth_error szs i = Some z ->
  nth_error (stride_of ratios szs) i
  = Some (if Qle_bool r 2 && Qle_bool 8 z then 2 else 1).
Proof.
  intros Hr Hz. unfold stride_of.
  rewrite nth_error_map, (nth_error_combine _ _ _ _ _ Hr Hz). reflexivity.
Qed.

Lemma kernel_of_nth (ratios : list Q) (i : nat) (r : Q) :
  nth_error ratios i = Some r ->
  nth_error (kernel_of ratios) i = Some (if Qle_bool r 2 then 3 else 1).
Proof. intros Hr. unfold kernel_of. now rewrite nth_error_map, Hr. Qed.

Lemma ratios_at_nth (st : locals) (i : nat) (x : Q) :
  nth_error (spacings st) i = Some x ->
  nth_error (ratios_at st) i = Some (x / min_of (spacings st))%Q.
Proof. intros H. unfold ratios_at. now rewrite nth_error_map, H. Qed.

Lemma nth_error_same_length {A B : Type} (l : list A) (l' : list B) (i : nat) (a : A) :
  length l = length l' -> nth_error l i = Some a -> exists b, nth_error l' i = Some b.
Proof.
  intros Hlen Ha.
  destruct (nth_error l' i) as [b|] eqn:E; [now exists b|].
  apply nth_error_None in E.
  assert (nth_error l i <> None) as Hi by congruence.
  apply nth_error_Some in Hi. lia.
Qed.

(** A patch whose working sizes are all below 8 is not downsampled. *)
Lemma stride_of_small (ratios szs : list Q) :
  Forall (fun z => (z < 8)%Q) szs -> all_eq_1 (stride_of ratios szs) = true.
Proof.
  intros Hsz. unfold all_eq_1, stride_of. apply forallb_forall.
  intros x Hx. apply in_map_iff in Hx. destruct Hx as ([r z] & <- & Hrz).
  apply in_combine_r in Hrz. rewrite Forall_forall in Hsz.
  rewrite (Qle_bool_false 8 z) by now apply Hsz.
  now rewrite andb_false_r.
Qed.

(** The example of C10: every patch dimension below 8. *)
Lemma small_patch_first_stride (cfg : Config.config) :
  valid_input cfg ->
  Forall (fun p => p < 8) (Config.patch_size cfg) ->
  exists s, first_stride cfg = Returns s /\ all_eq_1 s = true.
Proof.
  intros Hv Hsmall. exists (stride_at (initial cfg)).
  split; [now apply first_stride_eq|].
  apply stride_of_small. simpl.
  apply Forall_forall. intros z Hz.
  apply in_map_iff in Hz. destruct Hz as (p & <- & Hp).
  rewrite Forall_forall in Hsmall. specialize (Hsmall p Hp).
  change 8%Q with (inject_Z 8). rewrite <- Zlt_Qlt. exact Hsmall.
Qed.

(** ** Isotropic spacing *)

Lemma pow2_pos (j : nat) : (0 < pow2 j)%Q.
Proof.
  unfold pow2. change 0%Q with (inject_Z 0). rewrite <- Zlt_Qlt.
  apply Z.pow_pos_nonneg; lia.
Qed.

Lemma pow2_S (j : nat) : (pow2 (S j) == 2 * pow2 j)%Q.
Proof.
  unfold pow2. rewrite Nat2Z.inj_succ, Z.pow_succ_r by lia.
  rewrite inject_Z_mult. reflexivity.
Qed.

Lemma pow2_le (i j : nat) : (i <= j)%nat -> (pow2 i <= pow2 j)%Q.
Proof.
  intros H. unfold pow2. rewrite <- Zle_Qle.
  apply Z.pow_le_mono_r; lia.
Qed.

Lemma fold_Zmin_spec (rest : list Z) : forall p : Z,
  let m := fold_left Z.min rest p in
  (m = p \/ In m rest) /\ m <= p /\ Forall (fun q => m <= q) rest.
Proof.
  induction rest as [|q rest IH]; intros p; simpl.
  - repeat split; [now left | lia | constructor].
  - destruct (IH (Z.min p q)) as (Hin & Hle & Hall).
    repeat split.
    + destruct Hin as [Hin|Hin]; [|right; now right].
      destruct (Z.min_spec p q) as [[_ E]|[_ E]]; rewrite E in *;
        [now left | right; left; congruence].
    + lia.
    + constructor; [lia | exact Hall].
Qed.

Lemma min_dim_spec (patch : list Z) :
  patch <> [] ->
  In (min_dim patch) patch /\ Forall (fun q => min_dim patch <= q) patch.
Proof.
  destruct patch as [|p rest]; [congruence|]. intros _.
  unfold min_dim. destruct (fold_Zmin_spec rest p) as (Hin & Hle & Hall).
  split.
  - destruct Hin as [->|Hin]; [now left | now right].
  - constructor; assumption.
Qed.

Lemma stride_of_all_2 (ratios : list Q) : forall szs : list Q,
  Forall (fun r => (r <= 2)%Q) ratios ->
  Forall (fun z => (8 <= z)%Q) szs ->
  length szs = length ratios ->
  stride_of ratios szs = repeat 2 (length ratios).
Proof.
  induction ratios as [|r ratios IH]; intros [|z szs] Hr Hz Hlen; try discriminate.
  - reflexivity.
  - inversion Hr; subst. inversion Hz; subst.
    unfold stride_of in *. simpl.
    rewrite (Qle_bool_true r 2), (Qle_bool_true 8 z) by assumption.
    simpl. f_equal. apply IH; auto.
Qed.

Lemma kernel_of_all_3 (ratios : list Q) :
  Forall (fun r => (r <= 2)%Q) ratios ->
  kernel_of ratios = repeat 3 (length ratios).
Proof.
  induction 1 as [|r ratios Hr _ IH]; [reflexivity|].
  unfold kernel_of in *. simpl.
  rewrite (Qle_bool_true r 2) by assumption. now f_equal.
Qed.

Lemma combine_repeat_map {A B C : Type} (f : A * B -> C) (c : B) (l : list A) :
  map f (combine l (repeat c (length l))) = map (fun x => f (x, c)) l.
Proof. induction l as [|x l IH]; simpl; [reflexivity | now f_equal]. Qed.

Lemma all_eq_1_repeat_2 (n : nat) : (0 < n)%nat -> all_eq_1 (repeat 2 n) = false.
Proof. destruct n; [lia | reflexivity]. Qed.

(** When every axis has the same spacing, every ratio is 1. *)
Lemma ratios_at_isotropic (st : locals) :
  positive (spacings st) -> isotropic (spacings st) ->
  Forall (fun r => (r <= 2)%Q) (ratios_at st).
Proof.
  intros Hpos Hiso. unfold ratios_at.
  apply Forall_forall. intros r Hr.
  apply in_map_iff in Hr. destruct Hr as (x & <- & Hx).
  assert (Hne : spacings st <> []) by (intros E; rewrite E in Hx; contradiction).
  destruct (min_of_spec _ Hne) as [Hin _].
  pose proof (min_of_pos _ Hpos Hne) as Hm.
  pose proof (Hiso x _ Hx Hin) as Heq.
  apply Qle_shift_div_r; [exact Hm | lra].
Qed.

(** A pass on isotropic spacings with every working size at least 8
    halves every axis. *)
Lemma isotropic_pass (st : locals) :
  positive (spacings st) -> isotropic (spacings st) ->
  Forall (fun z => (8 <= z)%Q) (sizes st) ->
  length (sizes st) = length (spacings st) ->
  stride_at st = repeat 2 (length (spacings st))
  /\ kernel_at st = repeat 3 (length (spacings st))
  /\ spacings (next st) = map (fun x => (x * 2)%Q) (spacings st)
  /\ sizes (next st) = map (fun z => (z / 2)%Q) (sizes st).
Proof.
  intros Hpos Hiso Hsz Hlen.
  pose proof (ratios_at_isotropic st Hpos Hiso) as Hr.
  assert (Hlr : length (ratios_at st) = length (spacings st))
    by (unfold ratios_at; apply length_map).
  assert (Hs : stride_at st = repeat 2 (length (spacings st))).
  { unfold stride_at. rewrite <- Hlr. apply stride_of_all_2; auto. congruence. }
  split; [exact Hs|]. split.
  - unfold kernel_at. rewrite <- Hlr. now apply kernel_of_all_3.
  - simpl. rewrite Hs. split.
    + apply (combine_repeat_map (fun '(i, j) => (i * inject_Z j)%Q) 2).
    + rewrite <- Hlen.
      apply (combine_repeat_map (fun '(i, j) => (i / inject_Z j)%Q) 2).
Qed.

Lemma isotropic_doubled (sp : list Q) :
  isotropic sp -> isotropic (map (fun x => (x * 2)%Q) sp).
Proof.
  intros Hiso x y Hx Hy.
  apply in_map_iff in Hx. destruct Hx as (a & <- & Ha).
  apply in_map_iff in Hy. destruct Hy as (b & <- & Hb).
  rewrite (Hiso a b Ha Hb). reflexivity.
Qed.

Lemma recorded_nth {A : Type} (f : nat -> A) (k i : nat) :
  (i < k)%nat -> nth_error (map f (seq 0 k)) i = Some (f i).
Proof.
  intros Hi. rewrite nth_error_map, nth_error_seq.
  apply Nat.ltb_lt in Hi. now rewrite Hi.
Qed.

Lemma halved_ge_8 (patch : list Z) (j : nat) (szs : list Q) :
  halved patch j szs ->
  Forall (fun p => 8 * 2 ^ Z.of_nat j <= p) patch ->
  Forall (fun z => (8 <= z)%Q) szs.
Proof.
  unfold halved. induction 1 as [|z p szs ps Hz _ IH]; intros Hp; [constructor|].
  inversion Hp as [|? ? Hp1 Hp2]; subst.
  constructor; [|now apply IH].
  rewrite Hz. apply Qle_shift_div_l; [apply pow2_pos|].
  unfold pow2. change 8%Q with (inject_Z 8).
  rewrite <- inject_Z_mult, <- Zle_Qle. exact Hp1.
Qed.

Lemma halved_lt_8 (patch : list Z) (j : nat) (szs : list Q) :
  halved patch j szs ->
  Forall (fun p => p < 8 * 2 ^ Z.of_nat j) patch ->
  Forall (fun z => (z < 8)%Q) szs.
Proof.
  unfold halved. induction 1 as [|z p szs ps Hz _ IH]; intros Hp; [constructor|].
  inversion Hp as [|? ? Hp1 Hp2]; subst.
  constructor; [|now apply IH].
  rewrite Hz. apply Qlt_shift_div_r; [apply pow2_pos|].
  unfold pow2. change 8%Q with (inject_Z 8).
  rewrite <- inject_Z_mult, <- Zlt_Qlt. exact Hp1.
Qed.

Lemma halved_next (patch : list Z) (j : nat) (szs : list Q) :
  halved patch j szs -> halved patch (S j) (map (fun z => (z / 2)%Q) szs).
Proof.
  unfold halved. induction 1 as [|z p szs ps Hz _ IH]; simpl; constructor; [|exact IH].
  rewrite Hz, pow2_S.
  pose proof (pow2_pos j) as Hj.
  field. intros E. rewrite E in Hj. discriminate Hj.
Qed.

Lemma halved_initial (patch : list Z) : halved patch 0 (map inject_Z patch).
Proof.
  unfold halved. induction patch as [|p ps IH]; simpl; constructor; [|exact IH].
  change (pow2 0) with 1%Q. field.
Qed.

Lemma pow2_bound_weaken (j : nat) (patch : list Z) :
  Forall (fun p => 8 * 2 ^ Z.of_nat j <= p) patch ->
  Forall (fun p => 4 * 2 ^ Z.of_nat j <= p) patch.
Proof.
  intros Hp8. eapply Forall_impl; [|exact Hp8]. intros p H. cbv beta in H |- *.
  assert (0 < 2 ^ Z.of_nat j) by (apply Z.pow_pos_nonneg; lia). lia.
Qed.

Lemma pow2_bound_pred (j : nat) (patch : list Z) :
  Forall (fun p => 4 * 2 ^ Z.of_nat (S j) <= p) patch ->
  Forall (fun p => 8 * 2 ^ Z.of_nat j <= p) patch.
Proof.
  intros Hp. eapply Forall_impl; [|exact Hp]. intros p H. cbv beta in H |- *.
  rewrite Nat2Z.inj_succ, Z.pow_succ_r in H by lia. lia.
Qed.

Section Isotropic.

Variable cfg : Config.config.
Hypothesis Hvalid : valid_input cfg.
Hypothesis Hiso : isotropic (Config.spacings cfg).

(** As long as every patch dimension is at least [4 * 2^j], the first
    [j] passes keep the spacings isotropic and halve every size. *)
Lemma isotropic_state (j : nat) :
  Forall (fun p => 4 * 2 ^ Z.of_nat j <= p) (Config.patch_size cfg) ->
  isotropic (spacings (after j (initial cfg)))
  /\ halved (Config.patch_size cfg) j (sizes (after j (initial cfg))).
Proof.
  induction j as [|j IH]; intros Hp.
  - split; [exact Hiso | apply halved_initial].
  - pose proof (pow2_bound_pred j _ Hp) as Hp8.
    destruct (IH (pow2_bound_weaken j _ Hp8)) as [Hi Hh].
    destruct (initial_lengths cfg Hvalid) as [Hsp Hsz].
    destruct (after_lengths _ j _ Hsp Hsz) as [Hsp' Hsz'].
    destruct (isotropic_pass (after j (initial cfg))) as (_ & _ & Esp & Esz).
    + apply after_positive, initial_positive, Hvalid.
    + exact Hi.
    + now apply (halved_ge_8 (Config.patch_size cfg) j).
    + congruence.
    + rewrite after_S, Esp, Esz. split.
      * now apply isotropic_doubled.
      * now apply halved_next.
Qed.

(** The vectors of pass [j] while every patch dimension is at least
    [8 * 2^j]. *)
Lemma isotropic_vectors (j : nat) :
  Forall (fun p => 8 * 2 ^ Z.of_nat j <= p) (Config.patch_size cfg) ->
  stride_at (after j (initial cfg)) = repeat 2 (length (Config.spacings cfg))
  /\ kernel_at (after j (initial cfg)) = repeat 3 (length (Config.spacings cfg)).
Proof.
  intros Hp8.
  destruct (isotropic_state j (pow2_bound_weaken j _ Hp8)) as [Hi Hh].
  destruct (initial_lengths cfg Hvalid) as [Hsp Hsz].
  destruct (after_lengths _ j _ Hsp Hsz) as [Hsp' Hsz'].
  destruct (isotropic_pass (after j (initial cfg))) as (Es & Ek & _).
  - apply after_positive, initial_positive, Hvalid.
  - exact Hi.
  - now apply (halved_ge_8 (Config.patch_size cfg) j).
  - congruence.
  - rewrite Hsp' in Es, Ek. now split.
Qed.

(** The pass at which every working size has dropped below 8. *)
Lemma isotropic_stop (j : nat) :
  Forall (fun p => 4 * 2 ^ Z.of_nat j <= p) (Config.patch_size cfg) ->
  Forall (fun p => p < 8 * 2 ^ Z.of_nat j) (Config.patch_size cfg) ->
  all_eq_1 (stride_at (after j (initial cfg))) = true.
Proof.
  intros Hp4 Hlt.
  destruct (isotropic_state j Hp4) as [_ Hh].
  apply stride_of_small. now apply (halved_lt_8 (Config.patch_size cfg) j).
Qed.

End Isotropic.

Lemma pow2_times_8 (j e : Z) : 0 <= j -> j + 3 <= e -> 8 * 2 ^ j <= 2 ^ e.
Proof.
  intros Hj He. change 8 with (2 ^ 3). rewrite <- Z.pow_add_r by lia.
  apply Z.pow_le_mono_r; lia.
Qed.

Lemma pow2_times_4 (e : Z) : 2 <= e -> 4 * 2 ^ (e - 2) = 2 ^ e.
Proof.
  intros He. change 4 with (2 ^ 2). rewrite <- Z.pow_add_r by lia.
  f_equal. lia.
Qed.




(** ** A coarse axis *)

Lemma min_of_returned (sp : list Q) (m : Q) : Py.min sp = Returns m -> min_of sp = m.
Proof. intros H. unfold min_of. now rewrite H. Qed.

(** What a pass does to axis [i]. *)
Lemma next_spacing_nth (st : locals) (i : nat) (x : Q) :
  length (sizes st) = length (spacings st) ->
  nth_error (spacings st) i = Some x ->
  exists c, (c = 1 \/ c = 2)
            /\ nth_error (stride_at st) i = Some c
            /\ nth_error (spacings (next st)) i = Some (x * inject_Z c)%Q.
Proof.
  intros Hlen Hx.
  destruct (nth_error_same_length _ (sizes st) _ _ (eq_sym Hlen) Hx) as [z Hz].
  pose proof (stride_of_nth _ _ _ _ _ (ratios_at_nth st i x Hx) Hz) as Hs.
  fold (stride_at st) in Hs.
  eexists. split; [|split; [exact Hs|]].
  - destruct (_ && _); auto.
  - simpl. rewrite nth_error_map, (nth_error_combine _ _ _ _ _ Hx Hs). reflexivity.
Qed.

(** An axis whose spacing is more than twice the minimum is left alone by
    the pass. *)
Lemma coarse_axis_pass (st : locals) (a : nat) (x : Q) :
  positive (spacings st) ->
  length (sizes st) = length (spacings st) ->
  nth_error (spacings st) a = Some x ->
  (2 * min_of (spacings st) < x)%Q ->
  nth_error (stride_at st) a = Some 1
  /\ nth_error (kernel_at st) a = Some 1
  /\ nth_error (spacings (next st)) a = Some (x * inject_Z 1)%Q.
Proof.
  intros Hpos Hlen Hx Hgap.
  assert (Hne : spacings st <> []) by (intros E; rewrite E in Hx; destruct a; discriminate).
  pose proof (min_of_pos _ Hpos Hne) as Hm.
  assert (Hr : Qle_bool (x / min_of (spacings st)) 2 = false).
  { apply Qle_bool_false. now apply Qlt_shift_div_l. }
  destruct (nth_error_same_length _ (sizes st) _ _ (eq_sym Hlen) Hx) as [z Hz].
  pose proof (stride_of_nth _ _ _ _ _ (ratios_at_nth st a x Hx) Hz) as Hs.
  fold (stride_at st) in Hs. rewrite Hr in Hs. simpl in Hs.
  split; [exact Hs|]. split.
  - unfold kernel_at. rewrite (kernel_of_nth _ _ _ (ratios_at_nth st a x Hx)), Hr.
    reflexivity.
  - simpl. rewrite nth_error_map, (nth_error_combine _ _ _ _ _ Hx Hs). reflexivity.
Qed.

(** A pass at most doubles the minimum spacing. *)
Lemma min_of_next (st : locals) :
  positive (spacings st) ->
  spacings st <> [] ->
  length (sizes st) = length (spacings st) ->
  (min_of (spacings (next st)) <= 2 * min_of (spacings st))%Q.
Proof.
  intros Hpos Hne Hlen.
  destruct (min_of_spec _ Hne) as [Hin _].
  pose proof (min_of_pos _ Hpos Hne) as Hm.
  apply In_nth_error in Hin. destruct Hin as [i Hi].
  destruct (next_spacing_nth st i _ Hlen Hi) as (c & Hc & _ & Hnext).
  assert (Hne' : spacings (next st) <> [])
    by (intros E; rewrite E in Hnext; destruct i; discriminate).
  destruct (min_of_spec _ Hne') as [_ Hall].
  rewrite Forall_forall in Hall.
  specialize (Hall _ (nth_error_In _ _ Hnext)).
  destruct Hc as [-> | ->].
  - change (inject_Z 1) with 1%Q in Hall. lra.
  - change (inject_Z 2) with 2%Q in Hall. lra.
Qed.

Section CoarseAxis.

Variable cfg : Config.config.
Hypothesis Hvalid : valid_input cfg.

(** Axis [a] has spacing [s_a]; [m0] is the minimum spacing. *)
Variables (a : nat) (s_a m0 : Q) (j : nat).
Hypothesis Haxis : nth_error (Config.spacings cfg) a = Some s_a.
Hypothesis Hmin : Py.min (Config.spacings cfg) = Returns m0.
Hypothesis Hratio : (pow2 j < s_a / m0)%Q.

Lemma m0_pos : (0 < m0)%Q.
Proof.
  rewrite <- (min_of_returned _ _ Hmin).
  apply min_of_pos; [exact (initial_positive cfg Hvalid)|].
  intros E. rewrite E in Hmin. discriminate Hmin.
Qed.

Lemma coarse_gap : (pow2 j * m0 < s_a)%Q.
Proof.
  pose proof m0_pos as Hm.
  assert (E : (s_a == s_a / m0 * m0)%Q) by (field; lra).
  rewrite E. apply Qmult_lt_compat_r; assumption.
Qed.

(** Through the first [j] passes axis [a] keeps its spacing, and the
    minimum spacing has at most doubled at every pass. *)
Lemma coarse_axis_state (i : nat) :
  (i <= j)%nat ->
  exists x, nth_error (spacings (after i (initial cfg))) a = Some x
            /\ (x == s_a)%Q
            /\ (min_of (spacings (after i (initial cfg))) <= pow2 i * m0)%Q.
Proof.
  induction i as [|i IH]; intros Hi.
  - exists s_a. split; [exact Haxis|]. split; [reflexivity|].
    simpl. rewrite (min_of_returned _ _ Hmin).
    change (pow2 0) with 1%Q. lra.
  - destruct IH as (x & Hx & Ex & Hle); [lia|].
    destruct (initial_lengths cfg Hvalid) as [Hsp Hsz].
    destruct (after_lengths _ i _ Hsp Hsz) as [Hsp' Hsz'].
    pose proof (after_positive i _ (initial_positive cfg Hvalid)) as Hpos.
    assert (Hne : spacings (after i (initial cfg)) <> [])
      by (intros E; rewrite E in Hx; destruct a; discriminate).
    pose proof (min_of_next _ Hpos Hne (eq_trans Hsz' (eq_sym Hsp'))) as Hnext.
    pose proof (pow2_S i) as HS.
    assert (Hij : (pow2 (S i) * m0 <= pow2 j * m0)%Q).
    { apply Qmult_le_compat_r; [now apply pow2_le | apply Qlt_le_weak, m0_pos]. }
    pose proof coarse_gap as Hgap.
    assert (HSm : (pow2 (S i) * m0 == 2 * (pow2 i * m0))%Q) by (rewrite HS; ring).
    destruct (coarse_axis_pass (after i (initial cfg)) a x) as (_ & _ & Hx');
      [exact Hpos | congruence | exact Hx | lra |].
    exists (x * inject_Z 1)%Q. rewrite after_S.
    split; [exact Hx'|]. split.
    + rewrite Ex. change (inject_Z 1) with 1%Q. ring.
    + lra.
Qed.

(** Each of the first [j] passes gives axis [a] stride 1 and kernel 1. *)
Lemma coarse_axis_vectors (i : nat) :
  (i < j)%nat ->
  nth_error (stride_at (after i (initial cfg))) a = Some 1
  /\ nth_error (kernel_at (after i (initial cfg))) a = Some 1.
Proof.
  intros Hi.
  destruct (coarse_axis_state i) as (x & Hx & Ex & Hle); [lia|].
  destruct (initial_lengths cfg Hvalid) as [Hsp Hsz].
  destruct (after_lengths _ i _ Hsp Hsz) as [Hsp' Hsz'].
  pose proof (after_positive i _ (initial_positive cfg Hvalid)) as Hpos.
  pose proof (pow2_S i) as HS.
  assert (Hij : (pow2 (S i) * m0 <= pow2 j * m0)%Q).
  { apply Qmult_le_compat_r; [now apply pow2_le | apply Qlt_le_weak, m0_pos]. }
  pose proof coarse_gap as Hgap.
  assert (HSm : (pow2 (S i) * m0 == 2 * (pow2 i * m0))%Q) by (rewrite HS; ring).
  destruct (coarse_axis_pass (after i (initial cfg)) a x) as (Hs & Hk & _);
    [exact Hpos | congruence | exact Hx | lra |].
  now split.
Qed.

(** The first pass on an axis whose ratio is at most 2. *)
Lemma fine_axis_first_pass (b : nat) (s_b : Q) (p_b : Z) :
  nth_error (Config.spacings cfg) b = Some s_b ->
  nth_error (Config.patch_size cfg) b = Some p_b ->
  (s_b / m0 <= 2)%Q ->
  nth_error (kernel_at (initial cfg)) b = Some 3
  /\ nth_error (stride_at (initial cfg)) b = Some (if 8 <=? p_b then 2 else 1).
Proof.
  intros Hs Hp Hr.
  assert (Hratio_b : nth_error (ratios_at (initial cfg)) b = Some (s_b / m0)%Q).
  { rewrite (ratios_at_nth (initial cfg) b s_b Hs). simpl.
    now rewrite (min_of_returned _ _ Hmin). }
  assert (Hsize : nth_error (sizes (initial cfg)) b = Some (inject_Z p_b)).
  { simpl. now rewrite nth_error_map, Hp. }
  split.
  - unfold kernel_at. rewrite (kernel_of_nth _ _ _ Hratio_b).
    now rewrite (Qle_bool_true _ _ Hr).
  - unfold stride_at. rewrite (stride_of_nth _ _ _ _ _ Hratio_b Hsize).
    rewrite (Qle_bool_true _ _ Hr). simpl.
    destruct (8 <=? p_b) eqn:E.
    + apply Z.leb_le in E. rewrite Zle_Qle in E.
      change (inject_Z 8) with 8%Q in E.
      now rewrite (Qle_bool_true _ _ E).
    + apply Z.leb_gt in E. rewrite Zlt_Qlt in E.
      change (inject_Z 8) with 8%Q in E.
      now rewrite (Qle_bool_false _ _ E).
Qed.

End CoarseAxis.





(** ** Errors and edge cases of [get_unet_params] *)



(** X2: with an empty spacing vector nothing is evaluated inside the
    comprehensions ([min] is not called), the loop breaks at once, and
    the call returns the one-stage plan of two empty vectors, whatever
    the patch size is. *)
Theorem empty_spacings_plan (fuel : nat) (cfg : Config.config) :
  (1 <= fuel)%nat ->
  Config.spacings cfg = [] ->
  get_unet_params fuel cfg =
  Some (Returns {| ret_in_channels := Config.in_channels cfg;
                   ret_n_class := Config.n_class cfg;
                   ret_kernels := [[]];
                   ret_strides := [[]];
                   ret_patch_size := Config.patch_size cfg |}).
Proof.
  intros Hfuel Hsp.
  destruct fuel as [|fuel]; [lia|].
  assert (Hbody : loop_body (initial cfg) = Returns (inl (AllStridesOne, initial cfg))).
  { unfold loop_body, spacing_ratio. simpl. rewrite Hsp. reflexivity. }
  rewrite (get_unet_params_of_loop (S fuel) cfg AllStridesOne (initial cfg))
    by (simpl; now rewrite Hbody).
  simpl. rewrite Hsp. reflexivity.
Qed.

Lemma empty_spacings_plan_witness :
  (1 <= 1)%nat
  /\ Config.spacings cfg_no_spacing = []
  /\ get_unet_params 1 cfg_no_spacing =
     Some (Returns {| ret_in_channels := 1;
                      ret_n_class := 2;
                      ret_kernels := [[]];
                      ret_strides := [[]];
                      ret_patch_size := [64; 64] |}).
Proof.
  split; [lia|]. split; [reflexivity|].
  apply (empty_spacings_plan 1 cfg_no_spacing); [lia | reflexivity].
Defined.

(** After a pass both working vectors are as long as the shorter of the
    two was: [zip] stops at the shorter one. *)
Lemma next_lengths_min (st : locals) :
  length (spacings (next st)) = Nat.min (length (spacings st)) (length (sizes st))
  /\ length (sizes (next st)) = Nat.min (length (spacings st)) (length (sizes st)).
Proof.
  simpl. rewrite !length_map, !length_combine, stride_at_length. lia.
Qed.

Lemma stride_at_length_after (k : nat) (st : locals) :
  length (stride_at (after k st))
  = Nat.min (length (spacings st)) (length (sizes st)).
Proof.
  revert st. induction k as [|k IH]; intros st.
  - apply stride_at_length.
  - simpl. rewrite IH. destruct (next_lengths_min st) as [-> ->]. lia.
Qed.



(** ** Kernels and strides of one axis *)

(** An axis that a pass halves mixes along that axis: stride 2 comes
    with kernel 3. *)
Lemma stride_2_kernel_3 (st : locals) (a : nat) :
  nth_error (stride_at st) a = Some 2 -> nth_error (kernel_at st) a = Some 3.
Proof.
  intros Hs.
  assert (Ha : (a < length (stride_at st))%nat)
    by (apply nth_error_Some; congruence).
  rewrite stride_at_length in Ha.
  destruct (nth_error (spacings st) a) as [x|] eqn:Ex;
    [|apply nth_error_None in Ex; lia].
  destruct (nth_error (sizes st) a) as [z|] eqn:Ez;
    [|apply nth_error_None in Ez; lia].
  pose proof (ratios_at_nth st a x Ex) as Hr.
  unfold stride_at in Hs. rewrite (stride_of_nth _ _ _ _ _ Hr Ez) in Hs.
  unfold kernel_at. rewrite (kernel_of_nth _ _ _ Hr).
  destruct (Qle_bool (x / min_of (spacings st)) 2); [reflexivity|].
  simpl in Hs. discriminate Hs.
Qed.



Lemma axis_factor_snoc (ss : list (list Z)) (s : list Z) (a : nat) :
  axis_factor (ss ++ [s]) a = axis_factor ss a * nth a s 1.
Proof.
  unfold axis_factor. induction ss as [|s0 ss IH]; cbn [app fold_right].
  - ring.
  - rewrite IH. ring.
Qed.

(** What a pass does to the working size of axis [a]: it is halved only
    when it is at least 8. *)
Lemma next_size_nth (st : locals) (a : nat) (z : Q) :
  length (sizes st) = length (spacings st) ->
  nth_error (sizes st) a = Some z ->
  exists c, (c = 1 \/ (c = 2 /\ (8 <= z)%Q))
            /\ nth_error (stride_at st) a = Some c
            /\ nth_error (sizes (next st)) a = Some (z / inject_Z c)%Q.
Proof.
  intros Hlen Hz.
  destruct (nth_error_same_length _ (spacings st) _ _ Hlen Hz) as [x Hx].
  pose proof (stride_of_nth _ _ _ _ _ (ratios_at_nth st a x Hx) Hz) as Hs.
  fold (stride_at st) in Hs.
  eexists. split; [|split; [exact Hs|]].
  - destruct (Qle_bool (x / min_of (spacings st)) 2); simpl; [|now left].
    destruct (Qle_bool 8 z) eqn:E; [|now left].
    right. split; [reflexivity | now apply Qle_bool_iff].
  - simpl. rewrite nth_error_map, (nth_error_combine _ _ _ _ _ Hz Hs). reflexivity.
Qed.

Section AxisFactor.

Variable cfg : Config.config.
Hypothesis Hvalid : valid_input cfg.

(** Axis [a] of the patch has [p] voxels. *)
Variables (a : nat) (p : Z).
Hypothesis Hp : nth_error (Config.patch_size cfg) a = Some p.

(** After [k] passes the working size of the axis is the patch dimension
    divided by the product of the strides recorded for it; that product
    is at most [2^k]; the size is still at least 4 if the dimension was
    at least 8, and untouched if it was smaller. *)
Lemma working_size_invariant (k : nat) :
  exists z,
    nth_error (sizes (after k (initial cfg))) a = Some z
    /\ 0 < axis_factor (strides (after k (initial cfg))) a <= 2 ^ Z.of_nat k
    /\ (z * inject_Z (axis_factor (strides (after k (initial cfg))) a) == inject_Z p)%Q
    /\ (p < 8 -> axis_factor (strides (after k (initial cfg))) a = 1)
    /\ (8 <= p -> (4 <= z)%Q).
Proof.
  induction k as [|k IH].
  - exists (inject_Z p). simpl. split; [now rewrite nth_error_map, Hp|].
    unfold axis_factor. simpl. split; [lia|]. split; [ring|]. split; [reflexivity|].
    intros H. change 4%Q with (inject_Z 4). rewrite <- Zle_Qle. lia.
  - destruct IH as (z & Hz & Hf & Hzf & Hsmall & Hbig).
    destruct (initial_lengths cfg Hvalid) as [Hsp Hsz].
    destruct (after_lengths _ k _ Hsp Hsz) as [Hsp' Hsz'].
    destruct (next_size_nth (after k (initial cfg)) a z) as (c & Hc & Hs & Hnext);
      [congruence | exact Hz |].
    rewrite after_S.
    exists (z / inject_Z c)%Q. split; [exact Hnext|].
    change (strides (next (after k (initial cfg))))
      with (strides (after k (initial cfg)) ++ [stride_at (after k (initial cfg))]).
    rewrite axis_factor_snoc, (nth_error_nth _ _ 1 Hs).
    set (f := axis_factor (strides (after k (initial cfg))) a) in *.
    rewrite Nat2Z.inj_succ, Z.pow_succ_r by lia.
    destruct Hc as [-> | [-> H8]].
    + split; [lia|]. split.
      * rewrite Z.mul_1_r. rewrite <- Hzf. change (inject_Z 1) with 1%Q. field.
      * split; [intros H; rewrite Z.mul_1_r; auto|].
        intros H. specialize (Hbig H). change (inject_Z 1) with 1%Q.
        assert (E : (z / 1 == z)%Q) by field. rewrite E. exact Hbig.
    + assert (Hp8 : 8 <= p).
      { destruct (Z_lt_le_dec p 8) as [Hlt|Hge]; [|exact Hge].
        rewrite (Hsmall Hlt) in Hzf. change (inject_Z 1) with 1%Q in Hzf.
        assert (E : (z == inject_Z p)%Q) by (rewrite <- Hzf; ring).
        rewrite E in H8. change 8%Q with (inject_Z 8) in H8.
        rewrite <- Zle_Qle in H8. exact H8. }
      split; [lia|]. split.
      * rewrite inject_Z_mult, <- Hzf. change (inject_Z 2) with 2%Q. field.
      * split; [lia|]. intros _. change (inject_Z 2) with 2%Q.
        apply Qle_shift_div_l; [reflexivity | lra].
Qed.

End AxisFactor.



(** ** Filters-last layout *)

Ltac by_ndim t :=
  let d := fresh "d" in
  destruct t as [d [|? [|? [|? [|? [|? [|? ?]]]]]]].

(** X6: converting a tensor to filters-last and back, or back and then
    to filters-last, returns the tensor it started from; neither call
    fails, whatever the number of axes and whether or not the weight
    permute pass is enabled. *)
Theorem permute_4d_5d_round_trip {D A : Type} (weight_permute_pass : bool)
        (t : tensor D A) (to_filters_last : bool) :
  exists t',
    permute_4d_5d_tensor weight_permute_pass t to_filters_last = Some t'
    /\ permute_4d_5d_tensor weight_permute_pass t' (negb to_filters_last) = Some t.
Proof.
  destruct weight_permute_pass; [exists t; split; reflexivity|].
  by_ndim t; destruct to_filters_last; eexists; split; reflexivity.
Qed.

(** X7: the layouts named in the source.  With the pass disabled, a 4-D
    tensor laid out K, C, R, S becomes R, S, C, K (filters last) and
    R, S, C, K becomes K, C, R, S again; a 5-D tensor K, C, R, S, T
    becomes R, S, T, C, K and back. *)
Theorem filters_last_layouts {D A : Type} (d : D) (k c r s t : A) :
  permute_4d_5d_tensor false {| device := d; axes := [k; c; r; s] |} true
  = Some {| device := d; axes := [r; s; c; k] |}
  /\ permute_4d_5d_tensor false {| device := d; axes := [r; s; c; k] |} false
     = Some {| device := d; axes := [k; c; r; s] |}
  /\ permute_4d_5d_tensor false {| device := d; axes := [k; c; r; s; t] |} true
     = Some {| device := d; axes := [r; s; t; c; k] |}
  /\ permute_4d_5d_tensor false {| device := d; axes := [r; s; t; c; k] |} false
     = Some {| device := d; axes := [k; c; r; s; t] |}.
Proof. repeat split. Qed.

Ltac place_head :=
  match goal with
  | |- Permutation [] [] => constructor
  | |- Permutation (?x :: _) _ =>
      first [ apply perm_skip
            | apply (Permutation_cons_app [_] _ x)
            | apply (Permutation_cons_app [_; _] _ x)
            | apply (Permutation_cons_app [_; _; _] _ x)
            | apply (Permutation_cons_app [_; _; _; _] _ x) ];
      cbn [app]
  end.

(** X8: a call that returns leaves the tensor on its device and returns
    the same axes in some order, so the number of axes and the number of
    elements do not change. *)
Theorem permute_4d_5d_keeps_axes {D A : Type} (weight_permute_pass : bool)
        (t t' : tensor D A) (to_filters_last : bool) :
  permute_4d_5d_tensor weight_permute_pass t to_filters_last = Some t' ->
  device t' = device t /\ Permutation (axes t') (axes t) /\ ndim t' = ndim t.
Proof.
  intros H.
  assert (Hperm : device t' = device t /\ Permutation (axes t') (axes t)).
  { destruct weight_permute_pass.
    - injection H as <-. split; reflexivity.
    - by_ndim t; destruct to_filters_last; injection H as <-;
        (split; [reflexivity|]); cbn [axes]; try reflexivity; repeat place_head. }
  destruct Hperm as [Hd Hp]. repeat split; try assumption.
  unfold ndim. now apply Permutation_length.
Qed.

Lemma permute_4d_5d_keeps_axes_witness :
  permute_4d_5d_tensor false {| device := Cli.hpu; axes := [32; 4; 3; 3] |} true
  = Some {| device := Cli.hpu; axes := [3; 3; 4; 32] |}
  /\ device {| device := Cli.hpu; axes := [3; 3; 4; 32] |} = Cli.hpu
  /\ Permutation [3; 3; 4; 32] [32; 4; 3; 3]
  /\ ndim {| device := Cli.hpu; axes := [3; 3; 4; 32] |} = 4%nat.
Proof.
  split; [reflexivity|].
  apply (permute_4d_5d_keeps_axes false
           {| device := Cli.hpu; axes := [32; 4; 3; 3] |}
           {| device := Cli.hpu; axes := [3; 3; 4; 32] |} true).
  reflexivity.
Defined.

(** ** Moving a state dictionary *)

Section StateDicts.

Variables D A K O : Type.

Lemma to_to (d1 d2 : D) (t : tensor D A) : to d2 (to d1 t) = to d2 t.
Proof. reflexivity. Qed.

Lemma to_same (t : tensor D A) : to (device t) t = t.
Proof. now destruct t. Qed.

Lemma permute_4d_5d_to (flag : bool) (d : D) (t : tensor D A) (b : bool) :
  permute_4d_5d_tensor flag (to d t) b
  = option_map (to d) (permute_4d_5d_tensor flag t b).
Proof.
  destruct flag; [reflexivity|].
  by_ndim t; destruct b; reflexivity.
Qed.

Lemma permute_tensor_back (flag : bool) (t : tensor D A) (b : bool) :
  exists t',
    permute_4d_5d_tensor flag t b = Some t'
    /\ permute_4d_5d_tensor flag t' (negb b) = Some t.
Proof.
  destruct flag; [exists t; split; reflexivity|].
  by_ndim t; destruct b; eexists; split; reflexivity.
Qed.

Lemma change_change (sd : list (K * entry D A O)) (d1 d2 : D) :
  change_state_dict_device (change_state_dict_device sd d1) d2
  = change_state_dict_device sd d2.
Proof.
  unfold change_state_dict_device. rewrite map_map.
  apply map_ext. intros [name [t|o]]; reflexivity.
Qed.

Lemma change_same (sd : list (K * entry D A O)) (d : D) :
  all_on d sd -> change_state_dict_device sd d = sd.
Proof.
  unfold all_on. induction sd as [|[name [t|o]] sd IH]; intros Hall; simpl.
  - reflexivity.
  - assert (Et : to d t = t).
    { rewrite <- (Hall name t (or_introl eq_refl)). apply to_same. }
    rewrite Et. f_equal. apply IH. intros n t' Hin. apply (Hall n t'). now right.
  - f_equal. apply IH. intros n t' Hin. apply (Hall n t'). now right.
Qed.

Lemma permute_state_dict_change (flag : bool) (sd : list (K * entry D A O))
      (d : D) (b : bool) :
  permute_state_dict flag (change_state_dict_device sd d) b
  = option_map (fun sd' => change_state_dict_device sd' d)
               (permute_state_dict flag sd b).
Proof.
  induction sd as [|[name [t|o]] sd IH]; simpl.
  - reflexivity.
  - rewrite permute_4d_5d_to.
    destruct (permute_4d_5d_tensor flag t b) as [t'|]; simpl; [|reflexivity].
    fold (change_state_dict_device sd d). rewrite IH.
    now destruct (permute_state_dict flag sd b).
  - fold (change_state_dict_device sd d). rewrite IH.
    now destruct (permute_state_dict flag sd b).
Qed.

Lemma permute_state_dict_round_trip (flag : bool) (sd : list (K * entry D A O))
      (b : bool) :
  exists sd',
    permute_state_dict flag sd b = Some sd'
    /\ permute_state_dict flag sd' (negb b) = Some sd.
Proof.
  induction sd as [|[name [t|o]] sd (sd' & H1 & H2)]; simpl.
  - exists []. split; reflexivity.
  - destruct (permute_tensor_back flag t b) as (t' & Ht1 & Ht2).
    exists ((name, Tensor t') :: sd'). rewrite Ht1, H1. simpl.
    rewrite Ht2, H2. split; reflexivity.
  - exists ((name, Other o) :: sd'). rewrite H1. simpl.
    rewrite H2. split; reflexivity.
Qed.

End StateDicts.

(** X9: [change_state_dict_device] keeps the keys and their order, puts
    every tensor on the requested device, and of two moves in a row only
    the last one counts. *)
Theorem change_state_dict_device_moves {D A K O : Type}
        (sd : list (K * entry D A O)) (d1 d2 : D) :
  map fst (change_state_dict_device sd d2) = map fst sd
  /\ all_on d2 (change_state_dict_device sd d2)
  /\ change_state_dict_device (change_state_dict_device sd d1) d2
     = change_state_dict_device sd d2.
Proof.
  split; [|split].
  - unfold change_state_dict_device. rewrite map_map.
    apply map_ext. now intros [name param].
  - intros name t Hin. unfold change_state_dict_device in Hin.
    apply in_map_iff in Hin. destruct Hin as ([n [t0|o]] & E & _).
    + injection E as _ <-. reflexivity.
    + discriminate E.
  - apply change_change.
Qed.



(** ** The backup schedule *)

(** X11: once backups are enabled ([every_n] is a non-zero integer), the
    epochs at which one is written are those before [first_n] and the
    multiples of [every_n]. *)
Theorem backup_schedule (n first_n epoch : Z) :
  n <> 0 ->
  saves_backup (Some n) first_n epoch = true
  <-> epoch < first_n \/ (n | epoch).
Proof.
  intros Hn. unfold saves_backup.
  destruct (n =? 0) eqn:E; [apply Z.eqb_eq in E; contradiction|].
  rewrite orb_true_iff, Z.ltb_lt, Z.eqb_eq, (Z.mod_divide epoch n Hn).
  reflexivity.
Qed.

Lemma backup_schedule_witness :
  10 <> 0
  /\ (saves_backup (Some 10) 10 30 = true <-> 30 < 10 \/ (10 | 30)).
Proof.
  split; [lia|]. apply (backup_schedule 10 10 30). lia.
Defined.

(** X12: with a positive [every_n], any [every_n] consecutive epochs
    contain one at which a backup is written. *)
Theorem backup_in_every_window (n first_n epoch : Z) :
  0 < n ->
  exists e, epoch <= e < epoch + n /\ saves_backup (Some n) first_n e = true.
Proof.
  intros Hn.
  exists (((epoch + n - 1) / n) * n).
  pose proof (Z.div_mod (epoch + n - 1) n) as Hdm.
  pose proof (Z.mod_pos_bound (epoch + n - 1) n Hn) as Hb.
  split; [lia|].
  unfold saves_backup.
  destruct (n =? 0) eqn:E; [apply Z.eqb_eq in E; lia|].
  rewrite Z_mod_mult, Z.eqb_refl. apply orb_true_r.
Qed.

Lemma backup_in_every_window_witness :
  0 < 10
  /\ exists e, 21 <= e < 21 + 10 /\ saves_backup (Some 10) 10 e = true.
Proof.
  split; [lia|]. apply (backup_in_every_window 10 10 21). lia.
Defined.

(** ** Accepted arguments *)

Lemma append_empty (a b : String.string) :
  String.append a b = String.EmptyString -> b = String.EmptyString.
Proof. destruct a; simpl; [auto | discriminate]. Qed.

Lemma path_join_not_empty (a b : String.string) :
  b <> String.EmptyString -> Cli.path_join a b <> String.EmptyString.
Proof.
  intros Hb. unfold Cli.path_join.
  destruct (String.prefix _ b); [exact Hb|].
  destruct (_ || _); intros E; apply append_empty in E.
  - contradiction.
  - discriminate E.
Qed.

(** The arguments [check_args] returns, and when it returns. *)
Lemma check_args_accepts (here : String.string) (a a' : Cli.args) :
  Cli.check_args here a = inr a' ->
  (Cli.hpus a = 0 \/ Cli.gpus a = 0)
  /\ (Cli.hpus a = 0 -> Cli.optimizer a <> Cli.fusedadamw)
  /\ a' = {| Cli.gpus := Cli.gpus a;
             Cli.hpus := Cli.hpus a;
             Cli.run_lazy_mode := if Cli.hpus a =? 0 then false else Cli.run_lazy_mode a;
             Cli.optimizer := Cli.optimizer a;
             Cli.is_hmp := Cli.is_hmp a;
             Cli.hmp_bf16 :=
               if Cli.is_hmp a && String.eqb (Cli.hmp_bf16 a) String.EmptyString
               then Cli.path_join here Cli.ops_bf16
               else Cli.hmp_bf16 a;
             Cli.hmp_fp32 :=
               if Cli.is_hmp a && String.eqb (Cli.hmp_fp32 a) String.EmptyString
               then Cli.path_join here Cli.ops_fp32
               else Cli.hmp_fp32 a |}.
Proof.
  unfold Cli.check_args. intros H.
  destruct (Cli.hpus a =? 0) eqn:Eh.
  - apply Z.eqb_eq in Eh. simpl in H.
    destruct (Cli.optimizer a) eqn:Eo; try discriminate H;
      injection H as <-; (split; [now left|]); (split; [discriminate | reflexivity]).
  - apply Z.eqb_neq in Eh.
    destruct (Cli.gpus a =? 0) eqn:Eg; simpl in H; [|discriminate H].
    apply Z.eqb_eq in Eg. injection H as <-.
    split; [now right|]. split; [intros E; contradiction | reflexivity].
Qed.

Lemma filled_not_empty (flag : bool) (s here default : String.string) :
  default <> String.EmptyString ->
  flag = true ->
  (if flag && String.eqb s String.EmptyString
   then Cli.path_join here default else s) <> String.EmptyString.
Proof.
  intros Hd ->. simpl.
  destruct (String.eqb_spec s String.EmptyString); [|assumption].
  now apply path_join_not_empty.
Qed.

Lemma given_is_kept (flag : bool) (s other : String.string) :
  s <> String.EmptyString ->
  (if flag && String.eqb s String.EmptyString then other else s) = s.
Proof.
  intros Hs. destruct (String.eqb_spec s String.EmptyString); [contradiction|].
  now rewrite andb_false_r.
Qed.

(** X13: what [get_main_args] guarantees about the arguments it
    returns.  GPUs and HPUs are never both requested; lazy mode and the
    [fusedadamw] optimizer are only left on when HPUs are requested;
    with [--hmp] both operator lists are non-empty, and a list the user
    gave is kept; the device counts and the optimizer are as parsed. *)
Theorem accepted_args (here : String.string) (a a' : Cli.args) :
  Cli.check_args here a = inr a' ->
  (Cli.gpus a' = 0 \/ Cli.hpus a' = 0)
  /\ (Cli.run_lazy_mode a' = true -> Cli.hpus a' <> 0 /\ Cli.run_lazy_mode a = true)
  /\ (Cli.optimizer a' = Cli.fusedadamw -> Cli.hpus a' <> 0)
  /\ (Cli.is_hmp a' = true ->
      Cli.hmp_bf16 a' <> String.EmptyString /\ Cli.hmp_fp32 a' <> String.EmptyString)
  /\ (Cli.hmp_bf16 a <> String.EmptyString -> Cli.hmp_bf16 a' = Cli.hmp_bf16 a)
  /\ (Cli.hmp_fp32 a <> String.EmptyString -> Cli.hmp_fp32 a' = Cli.hmp_fp32 a)
  /\ Cli.gpus a' = Cli.gpus a /\ Cli.hpus a' = Cli.hpus a
  /\ Cli.optimizer a' = Cli.optimizer a.
Proof.
  intros H. destruct (check_args_accepts here a a' H) as (Hex & Hopt & ->).
  cbn [Cli.gpus Cli.hpus Cli.run_lazy_mode Cli.optimizer
       Cli.is_hmp Cli.hmp_bf16 Cli.hmp_fp32].
  split; [tauto|]. split.
  { destruct (Cli.hpus a =? 0) eqn:Eh; [discriminate|].
    apply Z.eqb_neq in Eh. auto. }
  split.
  { intros Eo Eh. now apply Hopt. }
  split.
  { intros Hm. split; apply filled_not_empty; (discriminate || assumption). }
  split; [apply given_is_kept|].
  split; [apply given_is_kept|].
  repeat split.
Qed.

Lemma accepted_args_witness :
  exists a',
    Cli.check_args String.EmptyString args_hpu = inr a'
    /\ (Cli.gpus a' = 0 \/ Cli.hpus a' = 0)
    /\ (Cli.run_lazy_mode a' = true -> Cli.hpus a' <> 0 /\ Cli.run_lazy_mode args_hpu = true)
    /\ (Cli.optimizer a' = Cli.fusedadamw -> Cli.hpus a' <> 0)
    /\ (Cli.is_hmp a' = true ->
        Cli.hmp_bf16 a' <> String.EmptyString /\ Cli.hmp_fp32 a' <> String.EmptyString)
    /\ (Cli.hmp_bf16 args_hpu <> String.EmptyString -> Cli.hmp_bf16 a' = Cli.hmp_bf16 args_hpu)
    /\ (Cli.hmp_fp32 args_hpu <> String.EmptyString -> Cli.hmp_fp32 a' = Cli.hmp_fp32 args_hpu)
    /\ Cli.gpus a' = Cli.gpus args_hpu /\ Cli.hpus a' = Cli.hpus args_hpu
    /\ Cli.optimizer a' = Cli.optimizer args_hpu.
Proof.
  eexists. split; [reflexivity|].
  apply (accepted_args String.EmptyString args_hpu). reflexivity.
Defined.

(** X14: on arguments [get_main_args] returned, the order of the tests
    in [get_device] does not matter: the device is [hpu] exactly when
    HPUs are requested, [cuda] exactly when GPUs are, and [cpu] exactly
    when neither is. *)
Theorem accepted_args_device (here : String.string) (a a' : Cli.args) :
  Cli.check_args here a = inr a' ->
  (Cli.get_device a' = Cli.hpu <-> Cli.hpus a' <> 0)
  /\ (Cli.get_device a' = Cli.cuda <-> Cli.gpus a' <> 0)
  /\ (Cli.get_device a' = Cli.cpu <-> Cli.gpus a' = 0 /\ Cli.hpus a' = 0).
Proof.
  intros H. destruct (check_args_accepts here a a' H) as (Hex & _ & ->).
  unfold Cli.get_device. cbn [Cli.gpus Cli.hpus].
  destruct (Z.eqb_spec (Cli.gpus a) 0) as [Eg|Eg];
    destruct (Z.eqb_spec (Cli.hpus a) 0) as [Eh|Eh];
    cbn [negb];
    repeat split; intros; try discriminate; try tauto.
Qed.

Lemma accepted_args_device_witness :
  exists a',
    Cli.check_args String.EmptyString args_hpu = inr a'
    /\ (Cli.get_device a' = Cli.hpu <-> Cli.hpus a' <> 0)
    /\ (Cli.get_device a' = Cli.cuda <-> Cli.gpus a' <> 0)
    /\ (Cli.get_device a' = Cli.cpu <-> Cli.gpus a' = 0 /\ Cli.hpus a' = 0).
Proof.
  eexists. split; [reflexivity|].
  apply (accepted_args_device String.EmptyString args_hpu). reflexivity.
Defined.

(** ** Where the data and the configuration are looked for *)

(** X15: [config.pkl] is opened in the directory [get_path] returns,
    except for a prediction (not a benchmark) on the default data
    directory, where [get_path] returns the [test] directory next to
    it. *)
Theorem config_beside_data (a : Paths.args) :
  exists dir,
    Paths.config_path a = Cli.path_join dir Paths.config_pkl
    /\ (Paths.get_path a = dir
        \/ (Paths.exec_mode a = Paths.predict
            /\ Paths.benchmark a = false
            /\ Paths.data a = Paths.default_data
            /\ Paths.get_path a = Cli.path_join dir Paths.test_dir)).
Proof.
  unfold Paths.config_path, Paths.get_path.
  destruct (String.eqb_spec (Paths.data a) Paths.default_data) as [E|E]; cbn [negb].
  - exists (Cli.path_join (Paths.data a) (Paths.get_task_code a)).
    split; [reflexivity|].
    destruct (Paths.exec_mode a) eqn:Em; try now left.
    destruct (Paths.benchmark a) eqn:Eb; cbn [negb]; [now left|].
    right. repeat split; assumption.
  - exists (Paths.data a). split; [reflexivity | now left].
Qed.

Lemma get_last (s : String.string) (c : Ascii.ascii) :
  String.get (String.length (String.append s (String.String c String.EmptyString)) - 1)
             (String.append s (String.String c String.EmptyString))
  = Some c.
Proof.
  induction s as [|c0 s IH]; [reflexivity|].
  cbn [String.append String.length].
  destruct (String.length (String.append s (String.String c String.EmptyString))) eqn:El.
  - destruct s; discriminate El.
  - cbn [Nat.sub] in *. rewrite Nat.sub_0_r in *. exact IH.
Qed.

Lemma append_assoc (a b c : String.string) :
  String.append (String.append a b) c = String.append a (String.append b c).
Proof. induction a as [|x a IH]; simpl; [reflexivity | now rewrite IH]. Qed.

Lemma append_last (root t u n d : String.string) :
  String.append root (String.append t (String.append u (String.append n d)))
  = String.append (String.append root (String.append t (String.append u n))) d.
Proof. now rewrite !append_assoc. Qed.

(** A task code, alone or after a root, ends in [d], not in a
    separator, and is not empty. *)
Lemma task_code_shape (a : Paths.args) (root : String.string) :
  Cli.ends_with_sep (String.append root (Paths.get_task_code a)) = false
  /\ String.append root (Paths.get_task_code a) <> String.EmptyString.
Proof.
  unfold Paths.get_task_code. split.
  - unfold Cli.ends_with_sep. rewrite append_last, get_last. reflexivity.
  - intros H. do 4 apply append_empty in H. discriminate H.
Qed.

Lemma prefix_empty (s : String.string) : String.prefix String.EmptyString s = true.
Proof. now destruct s. Qed.

(** A task code starts with a separator exactly when the task does. *)
Lemma task_code_prefix (a : Paths.args) (sep : Ascii.ascii) :
  sep <> Ascii.ascii_of_nat 95 ->
  String.prefix (String.String sep String.EmptyString) (Paths.get_task_code a)
  = String.prefix (String.String sep String.EmptyString) (Paths.str_opt (Paths.task a)).
Proof.
  intros Hsep. unfold Paths.get_task_code.
  destruct (Paths.str_opt (Paths.task a)) as [|c t]; cbn [String.append String.prefix].
  - destruct (Ascii.ascii_dec sep _) as [E|E]; [|reflexivity].
    exfalso. apply Hsep. exact E.
  - destruct (Ascii.ascii_dec sep c); [|reflexivity].
    now rewrite !prefix_empty.
Qed.

(** X16: with the default data directory, the data path stays under
    [/data] when the task does not start with a separator: it is
    [/data/<task code>], with [/test] added for a prediction that is not
    a benchmark.  When the task starts with a separator,
    [os.path.join] drops the data directory and the path starts at the
    task code. *)
Theorem get_path_default_data (a : Paths.args) :
  Paths.data a = Paths.default_data ->
  let sep := String.String (Ascii.ascii_of_nat 47) String.EmptyString in
  let code := Paths.get_task_code a in
  let base := if String.prefix sep (Paths.str_opt (Paths.task a))
              then code
              else String.append Paths.default_data (String.append sep code) in
  Paths.get_path a =
  match Paths.exec_mode a, Paths.benchmark a with
  | Paths.predict, false => String.append base (String.append sep Paths.test_dir)
  | _, _ => base
  end.
Proof.
  intros Hdata sep code base.
  assert (Hjoin : Cli.path_join Paths.default_data code = base).
  { unfold Cli.path_join, base. fold sep.
    change (String.prefix (String.String (Ascii.ascii_of_nat 47) String.EmptyString) code)
      with (String.prefix sep code).
    unfold code, sep. rewrite task_code_prefix by discriminate.
    destruct (String.prefix _ (Paths.str_opt (Paths.task a))); reflexivity. }
  assert (Hshape : Cli.ends_with_sep base = false /\ base <> String.EmptyString).
  { unfold base. destruct (String.prefix sep (Paths.str_opt (Paths.task a))).
    - apply (task_code_shape a String.EmptyString).
    - rewrite <- append_assoc. apply task_code_shape. }
  destruct Hshape as [Hend Hne].
  unfold Paths.get_path. rewrite Hdata, String.eqb_refl. cbn [negb].
  fold code. rewrite Hjoin.
  destruct (Paths.exec_mode a); try reflexivity.
  destruct (Paths.benchmark a); cbn [negb]; [reflexivity|].
  unfold Cli.path_join. cbn [String.prefix Paths.test_dir].
  rewrite Hend.
  destruct (String.eqb_spec base String.EmptyString); [contradiction|]. reflexivity.
Qed.

Lemma get_path_default_data_witness :
  Paths.data Paths.args_predict = Paths.default_data
  /\ Paths.get_path Paths.args_predict
     = String.append Paths.default_data
         (String.append (String.String (Ascii.ascii_of_nat 47) String.EmptyString)
            (String.append (Paths.get_task_code Paths.args_predict)
               (String.append (String.String (Ascii.ascii_of_nat 47) String.EmptyString)
                  Paths.test_dir))).
Proof.
  split; [reflexivity|].
  exact (get_path_default_data Paths.args_predict eq_refl).
Defined.
